(** * The dialog controller and the list-properties form of ckeditor5

    A shallow embedding of
      - packages/ckeditor5-ui/src/dialog/dialog.ts (the [Dialog] plugin), and
      - the list-properties form view ([ListPropertiesView], its start-index
        field),
    followed by the properties proved about them.

    Objects live in a heap and are named by their index, so that two plugin
    instances with equal fields remain two instances.  Methods are written in
    a small state-and-error monad that also records, in order, what a method
    does to the hosting framework (events fired, views added to or removed
    from the editor's body collection, user callbacks invoked). *)

From Stdlib Require Import ZArith Ascii String.
From stdpp Require Import base list strings pretty.

Open Scope string_scope.
Open Scope list_scope.

Module Dialog.

(** ** Data *)

(** A [Dialog] plugin instance and an [Editor] instance, by identity. *)
Abbreviation ref := nat (only parsing).
Abbreviation Editor := nat (only parsing).

(** [onShow] and [onHide] are functions supplied by the user of the plugin.
    A callback is a name; calling it is recorded, and what it then calls is
    looked up in a table (see [user_code]). *)
Abbreviation Callback := nat (only parsing).

(** The positions of dialogview.ts; [_show] names two of them. *)
Inductive DialogViewPosition :=
| SCREEN_CENTER
| EDITOR_CENTER
| OtherPosition (name : string).

(** [View | Array<View>]; a view is named by a number. *)
Inductive Content :=
| OneView (v : nat)
| ManyViews (vs : list nat).

(** [interface DialogDefinition]; an optional property is an [option]. *)
Record DialogDefinition := {
  def_id : string;
  def_icon : option string;
  def_title : option string;
  def_hasCloseButton : option bool;
  def_content : option Content;
  def_actionButtons : option (list string);
  def_className : option string;
  def_isModal : option bool;
  def_position : option DialogViewPosition;
  def_onShow : option Callback;
  def_onHide : option Callback
}.

(** The argument of [DialogView.setupParts]. *)
Record Parts := {
  icon : option string;
  title : option string;
  hasCloseButton : bool;
  content : option Content;
  actionButtons : option (list string)
}.

(** What the controller writes to, and reads from, a [DialogView].  A view
    that has just been constructed has none of these set. *)
Record DialogView := {
  position : option DialogViewPosition;
  isVisible : bool;
  className : option string;
  isModal : option bool;
  parts : option Parts;
  destroyed : bool
}.

(** The fields of a [Dialog] instance.  [id] is [string | null] ([None] is
    null); [isOpen] is declared but not initialised, so it is undefined
    ([None]) until the first assignment; [view] and [_onHide] are undefined
    ([None]) until assigned. *)
Record DialogObj := {
  editor : Editor;
  id : option string;
  view : option DialogView;
  isOpen : option bool;
  _onHide : option Callback
}.

(** The static property [Dialog._visibleDialogPlugin : Dialog | null].  It is
    declared without an initialiser, hence undefined at first. *)
Inductive Slot :=
| SlotUndefined
| SlotNull
| SlotPlugin (d : ref).

Record World := {
  heap : list DialogObj;
  _visibleDialogPlugin : Slot
}.

(** What a method does to its surroundings, in order. *)
Inductive Effect :=
| Fire (emitter : ref) (name : string)
| NewDialogView (d : ref)
| BodyAdd (e : Editor) (d : ref)
| FocusTrackerAdd (e : Editor) (d : ref)
| KeystrokesListenTo (e : Editor) (d : ref)
| ContentViewReset (d : ref)
| BodyRemove (e : Editor) (d : ref)
| FocusTrackerRemove (e : Editor) (d : ref)
| KeystrokesStopListening (e : Editor) (d : ref)
| ViewDestroy (d : ref)
| EditingViewFocus (e : Editor)
| CallOnShow (cb : Callback) (d : ref)
| CallOnHide (cb : Callback) (d : ref).

(** ** The monad of methods *)

(** A method body: from a world to a result, the next world and the effects,
    or [None] when it is called on an object that does not exist. *)
Definition M (A : Type) : Type := World → option (A * World * list Effect).

Definition ret {A} (a : A) : M A := λ w, Some (a, w, []).

Definition bind {A B} (m : M A) (k : A → M B) : M B := λ w,
  match m w with
  | None => None
  | Some (a, w1, t1) =>
      match k a w1 with
      | None => None
      | Some (b, w2, t2) => Some (b, w2, t1 ++ t2)
      end
  end.

#[local] Notation "x <- m ;; k" := (bind m (λ x, k))
  (at level 100, m at next level, right associativity, only parsing).
#[local] Notation "m ;;; k" := (bind m (λ _, k))
  (at level 100, right associativity, only parsing).

(** Reading [this]. *)
Definition deref (d : ref) : M DialogObj := λ w,
  match heap w !! d with
  | Some o => Some (o, w, [])
  | None => None
  end.

(** Assigning to properties of [this]. *)
Definition assign (d : ref) (f : DialogObj → DialogObj) : M unit := λ w,
  Some (tt, {| heap := alter f d (heap w);
               _visibleDialogPlugin := _visibleDialogPlugin w |}, []).

Definition get_visible : M Slot := λ w, Some (_visibleDialogPlugin w, w, []).

Definition set_visible (s : Slot) : M unit := λ w,
  Some (tt, {| heap := heap w; _visibleDialogPlugin := s |}, []).

Definition emit (e : Effect) : M unit := λ w, Some (tt, w, [e]).

Definition when (b : bool) (m : M unit) : M unit := if b then m else ret tt.

(** Property writes. *)
Definition set_id (x : option string) (o : DialogObj) : DialogObj :=
  {| editor := editor o; id := x; view := view o; isOpen := isOpen o;
     _onHide := _onHide o |}.

Definition set_view (x : option DialogView) (o : DialogObj) : DialogObj :=
  {| editor := editor o; id := id o; view := x; isOpen := isOpen o;
     _onHide := _onHide o |}.

Definition set_isOpen (x : option bool) (o : DialogObj) : DialogObj :=
  {| editor := editor o; id := id o; view := view o; isOpen := x;
     _onHide := _onHide o |}.

Definition set_onHide (x : option Callback) (o : DialogObj) : DialogObj :=
  {| editor := editor o; id := id o; view := view o; isOpen := isOpen o;
     _onHide := x |}.

(** Writes through the alias [view] of [this.view]. *)
Definition on_view (f : DialogView → DialogView) (o : DialogObj) : DialogObj :=
  set_view (f <$> view o) o.

(** ** The methods of [Dialog] *)

(** JavaScript truthiness of an optional boolean. *)
Definition truthy (b : option bool) : bool :=
  match b with Some true => true | _ => false end.

(** [new DialogView( ... )]. *)
Definition new_DialogView : DialogView :=
  {| position := None; isVisible := false; className := None;
     isModal := None; parts := None; destroyed := false |}.

(** [view.set( { position, isVisible: true, className, isModal } )]. *)
Definition view_set (p : DialogViewPosition) (c : option string)
    (m : option bool) (v : DialogView) : DialogView :=
  {| position := Some p; isVisible := true; className := c; isModal := m;
     parts := parts v; destroyed := destroyed v |}.

(** [view.setupParts( { ... } )]. *)
Definition setupParts (p : Parts) (v : DialogView) : DialogView :=
  {| position := position v; isVisible := isVisible v;
     className := className v; isModal := isModal v;
     parts := Some p; destroyed := destroyed v |}.

(** [view.destroy()]. *)
Definition destroy (v : DialogView) : DialogView :=
  {| position := position v; isVisible := isVisible v;
     className := className v; isModal := isModal v;
     parts := parts v; destroyed := true |}.

(** [view.contentView]: the dialog view makes a content view in setupParts
    when it is given content (dialogview.ts is not among the sources). *)
Definition has_contentView (v : DialogView) : bool :=
  match parts v with
  | Some p => bool_decide (is_Some (content p))
  | None => false
  end.

(** [static get pluginName()]. *)
Definition pluginName : string := "Dialog".

(** [constructor( editor )]: registers the listeners below, then
    [this.set( 'id', null )]. *)
Definition new_Dialog (e : Editor) : DialogObj :=
  {| editor := e; id := None; view := None; isOpen := None; _onHide := None |}.

Definition constructor (e : Editor) : M ref := λ w,
  Some (length (heap w),
        {| heap := heap w ++ [new_Dialog e];
           _visibleDialogPlugin := _visibleDialogPlugin w |}, []).

(** [_show( { id, icon, ..., onHide } )]. *)
Definition _show (this : ref) (def : DialogDefinition) : M unit :=
  o <- deref this ;;
  let editor := editor o in
  emit (NewDialogView this) ;;;
  assign this (set_view (Some new_DialogView)) ;;;
  emit (BodyAdd editor this) ;;;
  emit (FocusTrackerAdd editor this) ;;;
  emit (KeystrokesListenTo editor this) ;;;
  let position :=
    match def_position def with
    | Some p => p
    | None => if truthy (def_isModal def) then SCREEN_CENTER else EDITOR_CENTER
    end in
  assign this (on_view (view_set position (def_className def) (def_isModal def))) ;;;
  assign this (on_view (setupParts
    {| icon := def_icon def;
       title := def_title def;
       hasCloseButton := default true (def_hasCloseButton def);
       content := def_content def;
       actionButtons := def_actionButtons def |})) ;;;
  assign this (set_id (Some (def_id def))) ;;;
  match def_onHide def with
  | Some cb => assign this (set_onHide (Some cb))
  | None => ret tt
  end ;;;
  assign this (set_isOpen (Some true)) ;;;
  set_visible (SlotPlugin this).

(** [_hide()]. *)
Definition _hide (this : ref) : M unit :=
  o <- deref this ;;
  match view o with
  | None => ret tt
  | Some v =>
      let editor := editor o in
      when (has_contentView v) (emit (ContentViewReset this)) ;;;
      emit (BodyRemove editor this) ;;;
      emit (FocusTrackerRemove editor this) ;;;
      emit (KeystrokesStopListening editor this) ;;;
      assign this (on_view destroy) ;;;
      emit (ViewDestroy this) ;;;
      emit (EditingViewFocus editor) ;;;
      assign this (set_id None) ;;;
      assign this (set_isOpen (Some false)) ;;;
      set_visible SlotNull
  end.

(** What the code around the plugin asks of it: a plugin is made for an
    editor, or one of its methods is called, or the view of an instance
    fires [close]. *)
Inductive Op :=
| OpNew (e : Editor)
| OpShow (d : ref) (def : DialogDefinition)
| OpHide (d : ref)
| OpViewClose (d : ref).

Section Methods.

(** Running a user callback on the instance it is given: user code holds
    the plugin and may call its methods, here and now. *)
Variable call : Callback → ref → M unit.

(** The four listeners of [_initShowHideListeners], [this] being the
    instance that registered them. *)
Definition show_listener (this : ref) (args : DialogDefinition) : M unit :=
  _show this args.

Definition show_listener_low (this : ref) (args : DialogDefinition) : M unit :=
  match def_onShow args with
  | Some cb => emit (CallOnShow cb this) ;;; call cb this
  | None => ret tt
  end.

Definition hide_listener (this : ref) : M unit :=
  s <- get_visible ;;
  match s with
  | SlotPlugin v => _hide v
  | _ => ret tt
  end.

Definition hide_listener_low (this : ref) : M unit :=
  o <- deref this ;;
  match _onHide o with
  | Some cb =>
      emit (CallOnHide cb this) ;;;
      call cb this ;;;
      assign this (set_onHide None)
  | None => ret tt
  end.

(** [this.fire( name, ... )] for the events [show:<id>] and [hide:<id>]: the
    emitter runs the listeners of [show] (of [hide]) registered on [this],
    those of normal priority before those of low priority. *)
Definition fire_show (this : ref) (name : string) (args : DialogDefinition)
    : M unit :=
  emit (Fire this name) ;;;
  show_listener this args ;;;
  show_listener_low this args.

Definition fire_hide (this : ref) (name : string) : M unit :=
  emit (Fire this name) ;;;
  hide_listener this ;;;
  hide_listener_low this.

(** A template literal prints null as the text null. *)
Definition id_text (x : option string) : string :=
  match x with Some s => s | None => "null" end.

(** [hide()].  The method never reads [this]. *)
Definition hide (this : ref) : M unit :=
  s <- get_visible ;;
  match s with
  | SlotPlugin v =>
      o <- deref v ;;
      fire_hide v ("hide:" +:+ id_text (id o))
  | _ => ret tt
  end.

(** [show( dialogDefinition )]. *)
Definition show (this : ref) (dialogDefinition : DialogDefinition) : M unit :=
  hide this ;;;
  fire_show this ("show:" +:+ def_id dialogDefinition) dialogDefinition.

(** The listener that [_show] puts on the [close] event of its view.  A
    view that is missing or destroyed fires nothing. *)
Definition view_close (this : ref) : M unit :=
  o <- deref this ;;
  match view o with
  | Some v => if destroyed v then λ _, None else hide this
  | None => λ _, None
  end.

(** ** Runs *)

Definition run (op : Op) : M unit :=
  match op with
  | OpNew e => _ <- constructor e ;; ret tt
  | OpShow d def => show d def
  | OpHide d => hide d
  | OpViewClose d => view_close d
  end.

Fixpoint run_all (ops : list Op) : M unit :=
  match ops with
  | [] => ret tt
  | op :: ops => run op ;;; run_all ops
  end.

End Methods.

(** ** User callbacks *)

(** What each callback does when it is called on an instance, in the world
    it finds: the calls it makes to the plugins, in order. *)
Definition UserCode : Type := Callback → ref → World → list Op.

(** Running a callback.  [fuel] bounds how deep the calls may nest (a
    callback called by a call made by a callback, and so on); a callback
    that makes no call needs none.  Past the bound there is no result, as
    when the stack is exhausted. *)
Fixpoint user_code (body : UserCode) (fuel : nat) (cb : Callback)
    (this : ref) : M unit := λ w,
  match body cb this w with
  | [] => ret tt w
  | ops =>
      match fuel with
      | 0 => None
      | S fuel => run_all (user_code body fuel) ops w
      end
  end.

(** No callback calls the plugins. *)
Definition quiet (body : UserCode) : Prop :=
  ∀ cb this w, body cb this w = [].

(** No instance yet, and the static slot not yet assigned. *)
Definition initial : World :=
  {| heap := []; _visibleDialogPlugin := SlotUndefined |}.

(** The worlds that calls from outside reach from [initial], given how
    callbacks run; given what they do; whatever they do. *)
Definition reachable_via (call : Callback → ref → M unit) (w : World) : Prop :=
  ∃ ops t, run_all call ops initial = Some (tt, w, t).

Definition reachable_by (body : UserCode) (w : World) : Prop :=
  ∃ fuel, reachable_via (user_code body fuel) w.

Definition reachable (w : World) : Prop := ∃ body, reachable_by body w.

(** ** What a call amounts to *)

(** The view that [_show] leaves in [this.view]. *)
Definition shown_view (def : DialogDefinition) : DialogView :=
  {| position := Some
       match def_position def with
       | Some p => p
       | None => if truthy (def_isModal def) then SCREEN_CENTER else EDITOR_CENTER
       end;
     isVisible := true;
     className := def_className def;
     isModal := def_isModal def;
     parts := Some
       {| icon := def_icon def;
          title := def_title def;
          hasCloseButton := default true (def_hasCloseButton def);
          content := def_content def;
          actionButtons := def_actionButtons def |};
     destroyed := false |}.

(** An instance after [_show]. *)
Definition shown (def : DialogDefinition) (o : DialogObj) : DialogObj :=
  {| editor := editor o;
     id := Some (def_id def);
     view := Some (shown_view def);
     isOpen := Some true;
     _onHide := match def_onHide def with Some cb => Some cb | None => _onHide o end |}.

(** An instance after [_hide] found a view, and after the low-priority
    listener of [hide]. *)
Definition hidden (o : DialogObj) : DialogObj :=
  {| editor := editor o;
     id := None;
     view := destroy <$> view o;
     isOpen := Some false;
     _onHide := None |}.

Definition _show_effects (d : ref) (o : DialogObj) : list Effect :=
  [NewDialogView d; BodyAdd (editor o) d; FocusTrackerAdd (editor o) d;
   KeystrokesListenTo (editor o) d].

Definition show_effects (d : ref) (o : DialogObj) (def : DialogDefinition)
    : list Effect :=
  Fire d ("show:" +:+ def_id def) :: _show_effects d o ++
  match def_onShow def with Some cb => [CallOnShow cb d] | None => [] end.

Definition _hide_effects (d : ref) (o : DialogObj) (v : DialogView)
    : list Effect :=
  (if has_contentView v then [ContentViewReset d] else []) ++
  [BodyRemove (editor o) d; FocusTrackerRemove (editor o) d;
   KeystrokesStopListening (editor o) d; ViewDestroy d;
   EditingViewFocus (editor o)].

Definition hide_effects (d : ref) (o : DialogObj) (v : DialogView)
    : list Effect :=
  Fire d ("hide:" +:+ id_text (id o)) :: _hide_effects d o v ++
  match _onHide o with Some cb => [CallOnHide cb d] | None => [] end.

(** The static slot holds no instance. *)
Definition slot_empty (w : World) : Prop :=
  match _visibleDialogPlugin w with SlotPlugin _ => False | _ => True end.

(** No dialog is visible: the slot holds no instance, or the instance it
    holds has no view. *)
Definition nothing_visible (w : World) : Prop :=
  match _visibleDialogPlugin w with
  | SlotPlugin v => ∃ o, heap w !! v = Some o ∧ view o = None
  | _ => True
  end.

(** What holds of every world between two calls when no callback calls
    [show] or [hide]: one dialog at most is visible, and the slot records
    its instance. *)
Record consistent (w : World) : Prop := {
  recorded_is_open : ∀ v, _visibleDialogPlugin w = SlotPlugin v →
    ∃ o, heap w !! v = Some o ∧ isOpen o = Some true;
  open_is_recorded : ∀ d o, heap w !! d = Some o → isOpen o = Some true →
    _visibleDialogPlugin w = SlotPlugin d;
  open_has_view : ∀ d o, heap w !! d = Some o → isOpen o = Some true →
    ∃ v, view o = Some v ∧ destroyed v = false;
  closed_is_clean : ∀ d o, heap w !! d = Some o → isOpen o ≠ Some true →
    id o = None ∧ _onHide o = None
}.

(** ** Two editors on a page *)

Definition link_dialog : DialogDefinition :=
  {| def_id := "linkProperties";
     def_icon := None;
     def_title := Some "Link";
     def_hasCloseButton := None;
     def_content := Some (OneView 1);
     def_actionButtons := Some ["Save"; "Cancel"];
     def_className := None;
     def_isModal := None;
     def_position := None;
     def_onShow := Some 1;
     def_onHide := Some 2 |}.

Definition find_dialog : DialogDefinition :=
  {| def_id := "findAndReplace";
     def_icon := None;
     def_title := Some "Find and replace";
     def_hasCloseButton := Some true;
     def_content := Some (ManyViews [2; 3]);
     def_actionButtons := None;
     def_className := Some "ck-find-and-replace";
     def_isModal := Some true;
     def_position := None;
     def_onShow := None;
     def_onHide := None |}.

(** Two editors, each with its [Dialog] plugin; the first shows a dialog. *)
Definition page_ops : list Op := [OpNew 0; OpNew 1; OpShow 0 link_dialog].

(** Callbacks that make no call. *)
Definition no_calls : UserCode := λ _ _ _, [].

Definition page : World :=
  match run_all (user_code no_calls 0) page_ops initial with
  | Some (_, w, _) => w
  | None => initial
  end.

(** The second editor then shows a modal, a dialog is hidden through the
    first editor, and the second editor shows another dialog. *)
Definition busy_page_ops : list Op :=
  page_ops ++ [OpShow 1 find_dialog; OpHide 0; OpShow 1 link_dialog].

(** A world that no run reaches: the slot records an instance that has
    never shown a dialog.  It exercises the guard at the head of [_hide]. *)
Definition never_shown : World :=
  {| heap := [new_Dialog 0]; _visibleDialogPlugin := SlotPlugin 0 |}.

(** The same, with a callback still registered on that instance. *)
Definition never_shown_with_callback : World :=
  {| heap := [set_onHide (Some 7) (new_Dialog 0)];
     _visibleDialogPlugin := SlotPlugin 0 |}.

(** ** The three states of an instance *)

(** An instance that shows the dialog of [def]. *)
Definition opened (e : Editor) (def : DialogDefinition) : DialogObj :=
  {| editor := e;
     id := Some (def_id def);
     view := Some (shown_view def);
     isOpen := Some true;
     _onHide := def_onHide def |}.

(** An instance whose last dialog, that of [def], has been hidden: the view
    is destroyed and stays in [this.view]. *)
Definition closed (e : Editor) (def : DialogDefinition) : DialogObj :=
  {| editor := e;
     id := None;
     view := Some (destroy (shown_view def));
     isOpen := Some false;
     _onHide := None |}.

(** An instance between its [_hide] and the end of its [onHide] callback:
    closed, the callback still registered. *)
Definition pending (e : Editor) (def : DialogDefinition) (cb : Callback)
    : DialogObj :=
  set_onHide (Some cb) (closed e def).

Definition canonical (o : DialogObj) : Prop :=
  o = new_Dialog (editor o) ∨
  (∃ def, o = opened (editor o) def) ∨
  (∃ def, o = closed (editor o) def).

Definition all_canonical (w : World) : Prop :=
  ∀ d o, heap w !! d = Some o → canonical o.

(** What holds of a world whenever a call begins or ends, also inside a
    callback: the recorded instance is open, and every instance is in one
    of the three states or between its [_hide] and the end of its
    callback. *)
Record sound (w : World) : Prop := {
  sound_recorded : ∀ v, _visibleDialogPlugin w = SlotPlugin v →
    ∃ o, heap w !! v = Some o ∧ isOpen o = Some true;
  sound_instances : ∀ d o, heap w !! d = Some o →
    canonical o ∨ ∃ def cb, o = pending (editor o) def cb
}.

(** What a call, however deep the calls it makes, does to the instances:
    it keeps each one and its editor, it leaves in one of the three states
    each one that was, and it makes new ones only in the first state. *)
Record kept (w w' : World) : Prop := {
  kept_instances : ∀ d o, heap w !! d = Some o →
    ∃ o', heap w' !! d = Some o' ∧ editor o' = editor o ∧
          (canonical o → canonical o');
  kept_new : ∀ d o', heap w' !! d = Some o' → heap w !! d = None →
    canonical o'
}.

(** A definition with another [onHide]. *)
Definition with_onHide (x : option Callback) (def : DialogDefinition)
    : DialogDefinition :=
  {| def_id := def_id def; def_icon := def_icon def;
     def_title := def_title def;
     def_hasCloseButton := def_hasCloseButton def;
     def_content := def_content def;
     def_actionButtons := def_actionButtons def;
     def_className := def_className def; def_isModal := def_isModal def;
     def_position := def_position def; def_onShow := def_onShow def;
     def_onHide := x |}.

(** ** The keystroke and document listeners *)

(** What these two listeners do to the views and to the keystroke. *)
Inductive HandlerEffect :=
| EditingViewFocused (e : Editor)
| DialogViewFocused (d : ref)
| Cancelled
| PositionUpdated (d : ref).

(** The listener of Ctrl+F6 that [_initFocusToggler] sets.  [isFocused] is
    [this.view.focusTracker.isFocused] at the time of the keystroke.
    [this.view!] on an instance without a view throws ([None]). *)
Definition ctrlF6_listener (this : ref) (isFocused : bool) (w : World)
    : option (list HandlerEffect) :=
  match heap w !! this with
  | None => None
  | Some o =>
      if negb (truthy (isOpen o)) then Some []
      else
        match view o with
        | None => None
        | Some v =>
            if truthy (isModal v) then Some []
            else
              Some [if isFocused then EditingViewFocused (editor o)
                    else DialogViewFocused this;
                    Cancelled]
        end
  end.

(** An entry of [differ.getChangedRoots()]: [state] is 'attached',
    'detached' or undefined. *)
Inductive RootState :=
| attached
| detached.

Record ChangedRoot := {
  rootName : string;
  state : option RootState
}.

(** [for ( const changes of changedRoots )]. *)
Fixpoint updatePositions (this : ref) (changedRoots : list ChangedRoot)
    : list HandlerEffect :=
  match changedRoots with
  | [] => []
  | changes :: rest =>
      match state changes with
      | Some _ => PositionUpdated this :: updatePositions this rest
      | None => updatePositions this rest
      end
  end.

(** The listener of [change:data] that [_initMultiRootIntegration] sets. *)
Definition changeData_listener (this : ref) (changedRoots : list ChangedRoot)
    (w : World) : option (list HandlerEffect) :=
  match heap w !! this with
  | None => None
  | Some o =>
      match view o with
      | None => Some []
      | Some _ => Some (updatePositions this changedRoots)
      end
  end.

(** ** What a run leaves registered *)

(** The three places where [_show] registers the view and [_hide] removes
    it. *)
Inductive Registry :=
| BodyCollection
| FocusTracker
| KeystrokeHandler.

(** The view of instance [d] in editor [e], added ([true]) or removed. *)
Definition registration (r : Registry) (x : Effect)
    : option (bool * (Editor * ref)) :=
  match r, x with
  | BodyCollection, BodyAdd e d => Some (true, (e, d))
  | BodyCollection, BodyRemove e d => Some (false, (e, d))
  | FocusTracker, FocusTrackerAdd e d => Some (true, (e, d))
  | FocusTracker, FocusTrackerRemove e d => Some (false, (e, d))
  | KeystrokeHandler, KeystrokesListenTo e d => Some (true, (e, d))
  | KeystrokeHandler, KeystrokesStopListening e d => Some (false, (e, d))
  | _, _ => None
  end.

Definition register (r : Registry) (held : list (Editor * ref)) (x : Effect)
    : list (Editor * ref) :=
  match registration r x with
  | Some (true, v) => held ++ [v]
  | Some (false, v) => filter (λ u, u ≠ v) held
  | None => held
  end.

(** What a registry holds after the effects [t], from nothing. *)
Definition registry_after (r : Registry) (t : list Effect)
    : list (Editor * ref) :=
  fold_left (register r) t [].

(** The view of the visible dialog, if any. *)
Definition visible_view (w : World) : list (Editor * ref) :=
  match _visibleDialogPlugin w with
  | SlotPlugin d =>
      match heap w !! d with
      | Some o => [(editor o, d)]
      | None => []
      end
  | _ => []
  end.

(** A dialog that gives nothing but its id. *)
Definition bare_dialog (i : string) : DialogDefinition :=
  {| def_id := i; def_icon := None; def_title := None;
     def_hasCloseButton := None; def_content := None;
     def_actionButtons := None; def_className := None; def_isModal := None;
     def_position := None; def_onShow := None; def_onHide := None |}.

(** Two editors on a page, no dialog shown yet. *)
Definition initial_page : World :=
  {| heap := [new_Dialog 0; new_Dialog 1];
     _visibleDialogPlugin := SlotUndefined |}.

(** ** Callbacks that call the plugins *)

(** Callback 10 shows a dialog on instance 2, callback 11 hides, callback
    12 shows the next dialog on the instance it is given, callback 13 does
    the same with an [onHide] for that dialog; the others make no call. *)
Definition calling : UserCode := λ cb this _,
  match cb with
  | 10 => [OpShow 2 (bare_dialog "c")]
  | 11 => [OpHide this]
  | 12 => [OpShow this (bare_dialog "next")]
  | 13 => [OpShow this (with_onHide (Some 2) (bare_dialog "next"))]
  | _ => []
  end.

(** [{ id: 'a', onHide: () => d2.show( { id: 'c' } ) }]. *)
Definition chained_dialog : DialogDefinition :=
  with_onHide (Some 10) (bare_dialog "a").


(** [{ id: 'a', onHide: dialog => dialog.show( { id: 'next' } ) }]. *)
Definition wizard_dialog : DialogDefinition :=
  with_onHide (Some 12) (bare_dialog "a").

(** Three editors; the first shows a dialog whose [onHide] shows one in the
    third; then the second shows a dialog. *)
Definition chained_ops : list Op :=
  [OpNew 0; OpNew 1; OpNew 2; OpShow 0 chained_dialog;
   OpShow 1 (bare_dialog "b")].


(** Two editors; the first shows a dialog whose [onHide] shows the next
    dialog on the same instance. *)
Definition wizard_ops : list Op :=
  [OpNew 0; OpNew 1; OpShow 0 wizard_dialog].

Definition wizard_page : World :=
  match run_all (user_code calling 1) wizard_ops initial with
  | Some (_, w, _) => w
  | None => initial
  end.



(** ** The events that a run fires *)

(** The events fired in the effects [t]: the emitter and the name. *)
Definition fired (t : list Effect) : list (ref * string) :=
  omap (λ x, match x with Fire d name => Some (d, name) | _ => None end) t.

(** A listener that follows the events: [shown] is the instance and the id
    of the dialog announced by [show:<id>] and not yet by [hide:<id>].  It
    accepts [show:<id>] when no dialog is announced, and then only
    [hide:<id>] from the same instance with the same id. *)
Definition follow (shown : option (ref * string)) (event : ref * string)
    : option (option (ref * string)) :=
  match shown, event with
  | None, (d, String "s" (String "h" (String "o" (String "w"
             (String ":" i))))) => Some (Some (d, i))
  | None, _ => None
  | Some (d, i), (d', name) =>
      if decide (d' = d ∧ name = "hide:" +:+ i) then Some None else None
  end.

Fixpoint follow_all (shown : option (ref * string))
    (events : list (ref * string)) : option (option (ref * string)) :=
  match events with
  | [] => Some shown
  | event :: events =>
      match follow shown event with
      | Some shown => follow_all shown events
      | None => None
      end
  end.

(** The visible instance and the id of its dialog. *)
Definition shown_dialog (w : World) : option (ref * string) :=
  match _visibleDialogPlugin w with
  | SlotPlugin d =>
      match heap w !! d with
      | Some o =>
          match id o with
          | Some i => Some (d, i)
          | None => None
          end
      | None => None
      end
  | _ => None
  end.

End Dialog.

Module ListPropertiesView.

(** ** [Number.parseInt] *)

(** The numbers that [Number.parseInt] returns, kept exact: NaN or an
    integer.  A JavaScript number is a double: it holds an integer exactly
    up to 2^53 in magnitude, rounds it beyond, and is Infinity from about
    309 digits; the sign of zero is not kept here either.  None of this
    changes a comparison with 1; what is said of the number itself is said
    within 2^53.  Strings are read as code units below 256. *)
Inductive Number :=
| NaN
| Int (z : Z).

(** White space that [parseInt] skips, among the code units below 256: tab,
    line feed, vertical tab, form feed, carriage return, space and no-break
    space. *)
Definition is_white_space (c : ascii) : bool :=
  let n := nat_of_ascii c in
  ((n =? 9) || (n =? 10) || (n =? 11) || (n =? 12) || (n =? 13) || (n =? 32)
   || (n =? 160))%nat.

Fixpoint trim_start (s : string) : string :=
  match s with
  | String c s' => if is_white_space c then trim_start s' else s
  | EmptyString => s
  end.

(** The value of a character as a digit, up to radix 36. *)
Definition digit_value (c : ascii) : option Z :=
  let n := Z.of_nat (nat_of_ascii c) in
  if ((48 <=? n) && (n <=? 57))%Z then Some (n - 48)%Z
  else if ((97 <=? n) && (n <=? 122))%Z then Some (n - 87)%Z
  else if ((65 <=? n) && (n <=? 90))%Z then Some (n - 55)%Z
  else None.

(** The longest prefix of digits of radix [R], as a number; [None] when
    there is no digit. *)
Fixpoint parse_digits (R : Z) (s : string) (acc : option Z) : option Z :=
  match s with
  | String c s' =>
      match digit_value c with
      | Some v =>
          if (v <? R)%Z then parse_digits R s' (Some (default 0 acc * R + v))%Z
          else acc
      | None => acc
      end
  | EmptyString => acc
  end.

(** [Number.parseInt( string )], no radix given. *)
Definition parseInt (string : string) : Number :=
  let inputString := trim_start string in
  let '(sign, unsigned) :=
    match inputString with
    | String "-" rest => ((-1)%Z, rest)
    | String "+" rest => (1%Z, rest)
    | _ => (1%Z, inputString)
    end in
  let '(R, digits) :=
    match unsigned with
    | String "0" (String "x" rest) => (16%Z, rest)
    | String "0" (String "X" rest) => (16%Z, rest)
    | _ => (10%Z, unsigned)
    end in
  match parse_digits R digits None with
  | Some mathInt => Int (sign * mathInt)
  | None => NaN
  end.

(** [a < b] for a number and an integer: false on NaN. *)
Definition lt (a : Number) (b : Z) : bool :=
  match a with
  | NaN => false
  | Int z => (z <? b)%Z
  end.

(** ** The start-index field *)

(** What the listener reads and writes: [fieldView.element.value] and
    [errorText] (a string or null). *)
Record StartIndexField := {
  value : string;
  errorText : option string
}.

Definition set_errorText (x : option string) (f : StartIndexField)
    : StartIndexField :=
  {| value := value f; errorText := x |}.

(** [this.fire( 'listStart', parsedValue )]. *)
Inductive Fired :=
| listStart (parsedValue : Number).

Section Locale.

(** [locale.t], which renders a message in the language of the editor. *)
Variable t : string → string.

(** The listener that [_createStartIndexField] puts on the [input] event of
    the field view. *)
Definition startIndexField_onInput (f : StartIndexField)
    : StartIndexField * list Fired :=
  let value := value f in
  if bool_decide (value ≠ "") then
    let parsedValue := parseInt value in
    if lt parsedValue 1 then
      (set_errorText (Some (t "Start index must be greater than 0.")) f, [])
    else
      (f, [listStart parsedValue])
  else (f, []).

End Locale.

(** The locale of an editor in English: messages are shown as written. *)
Definition t_en (message : string) : string := message.

(** ** The input view of the start-index field *)

(** The listener that [createLabeledInputNumber] puts on the [input] event
    of the input view: the error goes away as the user types. *)
Definition inputView_onInput (f : StartIndexField) : StartIndexField :=
  set_errorText None f.

(** [inputView.bind( 'hasError' ).to( labeledFieldView, 'errorText',
    value => !!value )]: null and the empty string are falsy. *)
Definition hasError (f : StartIndexField) : bool :=
  match errorText f with
  | Some text => negb (String.eqb text "")
  | None => false
  end.

(** [inputView.bind( 'isReadOnly' ).to( labeledFieldView, 'isEnabled',
    value => !value )]. *)
Definition isReadOnly (isEnabled : bool) : bool := negb isEnabled.

(** An [input] event of the field view.  Its listeners run in the order in
    which they were put: that of [createLabeledInputNumber], which runs when
    the labeled field view is made, then that of [_createStartIndexField]. *)
Definition fieldView_fire_input (t : string → string) (f : StartIndexField)
    : StartIndexField * list Fired :=
  startIndexField_onInput t (inputView_onInput f).

(** ** The form *)

(** [numberedListPropertyCommands]; a command is named by a number. *)
Record NumberedListPropertyCommands := {
  listStartCommand : nat;
  listReversedCommand : nat
}.

Record EnabledProperties := {
  startIndex : bool;
  reversed : bool
}.

(** The second argument of the constructor; [styleButtonViews] is an array
    of views (named by numbers) or is not given. *)
Record Options := {
  numberedListPropertyCommands : option NumberedListPropertyCommands;
  enabledProperties : EnabledProperties;
  styleButtonViews : option (list nat);
  styleGridAriaLabel : string
}.

(** The two fields of a numbered list: its label, its class and the command
    it is bound to. *)
Inductive FieldView :=
| StartIndexFieldView (label class : string) (command : nat)
| ReversedFieldView (label class : string) (command : nat).

Inductive ChildView :=
| StylesView (ariaLabel : string) (styleButtons : list nat)
| CollapsibleView (label : string) (isCollapsed : bool)
    (fields : list FieldView)
| FieldChild (field : FieldView).

(** The members that the constructor sets, and the classes of the
    template. *)
Record Form := {
  children : list ChildView;
  stylesView : option ChildView;
  startIndexFieldView : option FieldView;
  reversedFieldView : option FieldView;
  cssClasses : list string
}.

Definition _createStylesView (styleButtons : list nat)
    (styleGridAriaLabel : string) : ChildView :=
  StylesView styleGridAriaLabel styleButtons.

Definition _createStartIndexField (t : string → string)
    (commands : NumberedListPropertyCommands) : FieldView :=
  StartIndexFieldView (t "Start at") "ck-numbered-list-properties-start-index"
    (listStartCommand commands).

Definition _createReversedField (t : string → string)
    (commands : NumberedListPropertyCommands) : FieldView :=
  ReversedFieldView (t "Reversed order")
    "ck-numbered-list-properties-reversed-order"
    (listReversedCommand commands).

(** [constructor( locale, { ... } )]. *)
Definition constructor (t : string → string) (options : Options) : Form :=
  let cssClasses := ["ck"; "ck-list-properties"] in
  let children := [] in
  let '(stylesView, children, cssClasses) :=
    match styleButtonViews options with
    | Some styleButtonViews =>
        let stylesView :=
          _createStylesView styleButtonViews (styleGridAriaLabel options) in
        (Some stylesView, children ++ [stylesView], cssClasses)
    | None =>
        (None, children, cssClasses ++ ["ck-list-properties_without-styles"])
    end in
  match numberedListPropertyCommands options with
  | Some commands =>
      let numberedPropertiesFields := [] in
      let '(startIndexFieldView, numberedPropertiesFields) :=
        if startIndex (enabledProperties options) then
          let field := _createStartIndexField t commands in
          (Some field, numberedPropertiesFields ++ [field])
        else (None, numberedPropertiesFields) in
      let '(reversedFieldView, numberedPropertiesFields) :=
        if reversed (enabledProperties options) then
          let field := _createReversedField t commands in
          (Some field, numberedPropertiesFields ++ [field])
        else (None, numberedPropertiesFields) in
      let children :=
        match styleButtonViews options with
        | Some _ =>
            children ++
            [CollapsibleView (t "List properties") true
               numberedPropertiesFields]
        | None => children ++ (FieldChild <$> numberedPropertiesFields)
        end in
      {| children := children;
         stylesView := stylesView;
         startIndexFieldView := startIndexFieldView;
         reversedFieldView := reversedFieldView;
         cssClasses :=
           cssClasses ++ ["ck-list-properties_with-numbered-properties"] |}
  | None =>
      {| children := children;
         stylesView := stylesView;
         startIndexFieldView := None;
         reversedFieldView := None;
         cssClasses := cssClasses |}
  end.

(** What can take the focus: a style button or a field. *)
Inductive Focusable :=
| StyleButton (view : nat)
| Field (field : FieldView).

(** What [render()] fills: the focusable views, the elements that the focus
    tracker follows, the keys whose propagation the form stops, and whether
    it listens to [selectstart] on the start-index field. *)
Record Rendered := {
  focusables : list Focusable;
  focusTracker : list Focusable;
  keystrokes : list string;
  selectstart : bool
}.

(** [render()]. *)
Definition render (form : Form) : Rendered :=
  let r := {| focusables := []; focusTracker := []; keystrokes := [];
              selectstart := false |} in
  let r :=
    match stylesView form with
    | Some (StylesView _ styleButtons) =>
        fold_left
          (λ r styleButtonView,
             {| focusables := focusables r ++ [StyleButton styleButtonView];
                focusTracker := focusTracker r ++ [StyleButton styleButtonView];
                keystrokes := keystrokes r;
                selectstart := selectstart r |})
          styleButtons r
    | _ => r
    end in
  let r :=
    match startIndexFieldView form with
    | Some field =>
        {| focusables := focusables r ++ [Field field];
           focusTracker := focusTracker r ++ [Field field];
           keystrokes :=
             keystrokes r ++
             ["arrowright"; "arrowleft"; "arrowup"; "arrowdown"];
           selectstart := true |}
    | None => r
    end in
  match reversedFieldView form with
  | Some field =>
      {| focusables := focusables r ++ [Field field];
         focusTracker := focusTracker r ++ [Field field];
         keystrokes := keystrokes r;
         selectstart := selectstart r |}
  | None => r
  end.

(** The options of a form with four styles and both fields. *)
Definition numbered_options : Options :=
  {| numberedListPropertyCommands :=
       Some {| listStartCommand := 1; listReversedCommand := 2 |};
     enabledProperties := {| startIndex := true; reversed := true |};
     styleButtonViews := Some [10; 11; 12; 13];
     styleGridAriaLabel := "Numbered list styles toolbar" |}.

End ListPropertiesView.

(** * Properties of the dialog controller *)

Section DialogLifecycle.

Import Dialog.

(** ** Calls in closed form *)

Lemma alter_at {A} (f : A → A) (l : list A) (i : nat) (x : A) :
  l !! i = Some x → alter f i l = <[i := f x]> l.
Proof.
  intros Hx. rewrite list_insert_alter.
  apply list_alter_ext; [|done]. intros y Hy. congruence.
Qed.

Lemma _show_run (w : World) (d : ref) (o : DialogObj) (def : DialogDefinition) :
  heap w !! d = Some o →
  _show d def w =
    Some (tt, {| heap := <[d := shown def o]> (heap w);
                 _visibleDialogPlugin := SlotPlugin d |}, _show_effects d o).
Proof.
  intros Hd. unfold _show, bind, deref. rewrite Hd.
  destruct o as [e i v op oh].
  destruct (def_onHide def) as [cb|] eqn:Hcb; cbn;
    rewrite !list_alter_alter_eq, (alter_at _ _ _ _ Hd);
    unfold shown, _show_effects; cbn; rewrite Hcb; reflexivity.
Qed.

Lemma _hide_run (w : World) (d : ref) (o : DialogObj) (v : DialogView) :
  heap w !! d = Some o → view o = Some v →
  _hide d w =
    Some (tt, {| heap := <[d := set_onHide (_onHide o) (hidden o)]> (heap w);
                 _visibleDialogPlugin := SlotNull |}, _hide_effects d o v).
Proof.
  intros Hd Hv. unfold _hide, bind, deref. rewrite Hd, Hv.
  destruct o as [e i v' op oh]. cbn in Hv. subst v'.
  unfold _hide_effects.
  destruct (has_contentView v); cbn;
    rewrite !list_alter_alter_eq, (alter_at _ _ _ _ Hd); reflexivity.
Qed.

Lemma _hide_run_no_view (w : World) (d : ref) (o : DialogObj) :
  heap w !! d = Some o → view o = None → _hide d w = Some (tt, w, []).
Proof. intros Hd Hv. unfold _hide, bind, deref. rewrite Hd, Hv. reflexivity. Qed.

(** ** Calls, whatever the callbacks do *)

Section AnyCallbacks.

Variable call : Callback → ref → M unit.

Lemma hide_run_empty (w : World) (d : ref) :
  slot_empty w → hide call d w = Some (tt, w, []).
Proof.
  unfold slot_empty, hide, bind, get_visible.
  destruct (_visibleDialogPlugin w); [reflexivity..|tauto].
Qed.

(** [hide()] with an instance recorded that has a view: [_hide], then the
    callback of that instance, if it has one, run in the world that [_hide]
    leaves, then the callback forgotten. *)
Lemma hide_unfold (w : World) (d v : ref) (o : DialogObj) (vw : DialogView) :
  _visibleDialogPlugin w = SlotPlugin v →
  heap w !! v = Some o → view o = Some vw →
  hide call d w =
    match _onHide o with
    | None =>
        Some (tt, {| heap := <[v := hidden o]> (heap w);
                     _visibleDialogPlugin := SlotNull |},
              hide_effects v o vw)
    | Some cb =>
        match call cb v
                {| heap := <[v := set_onHide (Some cb) (hidden o)]> (heap w);
                   _visibleDialogPlugin := SlotNull |} with
        | Some (_, w2, t2) =>
            Some (tt, {| heap := alter (set_onHide None) v (heap w2);
                         _visibleDialogPlugin := _visibleDialogPlugin w2 |},
                  hide_effects v o vw ++ t2)
        | None => None
        end
    end.
Proof.
  intros Hs Hv Hvw.
  unfold hide, fire_hide, hide_listener, hide_listener_low, bind, get_visible,
    deref, emit.
  rewrite Hs, Hv. cbn. rewrite Hs, (_hide_run _ _ _ _ Hv Hvw). cbn.
  rewrite list_lookup_insert_eq by (by eapply lookup_lt_Some).
  unfold hide_effects. cbn.
  destruct (_onHide o) as [cb|] eqn:Hcb; cbn.
  - destruct (call cb v _) as [[[[] w2] t2]|]; [|done]. cbn.
    by rewrite app_nil_r, <- app_assoc.
  - rewrite !app_nil_r.
    replace (set_onHide None (hidden o)) with (hidden o) by reflexivity.
    reflexivity.
Qed.

(** [hide()] with an instance recorded that has no view: [_hide] returns at
    once, and the callback of that instance, if it has one, is run and
    forgotten all the same. *)
Lemma hide_unfold_no_view (w : World) (d v : ref) (o : DialogObj) :
  _visibleDialogPlugin w = SlotPlugin v →
  heap w !! v = Some o → view o = None →
  hide call d w =
    match _onHide o with
    | None => Some (tt, w, [Fire v ("hide:" +:+ id_text (id o))])
    | Some cb =>
        match call cb v w with
        | Some (_, w2, t2) =>
            Some (tt, {| heap := alter (set_onHide None) v (heap w2);
                         _visibleDialogPlugin := _visibleDialogPlugin w2 |},
                  Fire v ("hide:" +:+ id_text (id o)) :: CallOnHide cb v :: t2)
        | None => None
        end
    end.
Proof.
  intros Hs Hv Hvw.
  unfold hide, fire_hide, hide_listener, hide_listener_low, bind, get_visible,
    deref, emit.
  rewrite Hs, Hv. cbn. rewrite Hs, (_hide_run_no_view _ _ _ Hv Hvw). cbn.
  rewrite Hv. destruct (_onHide o) as [cb|] eqn:Hcb; cbn.
  - destruct (call cb v w) as [[[[] w2] t2]|]; [|done]. cbn.
    by rewrite app_nil_r.
  - reflexivity.
Qed.

(** The firing of [show:<id>] on an existing instance: [_show], then the
    [onShow] of the definition, if it has one, run in the world that [_show]
    leaves. *)
Lemma fire_show_unfold (w : World) (d : ref) (o : DialogObj)
    (def : DialogDefinition) :
  heap w !! d = Some o →
  fire_show call d ("show:" +:+ def_id def) def w =
    match def_onShow def with
    | None =>
        Some (tt, {| heap := <[d := shown def o]> (heap w);
                     _visibleDialogPlugin := SlotPlugin d |},
              show_effects d o def)
    | Some cb =>
        match call cb d {| heap := <[d := shown def o]> (heap w);
                           _visibleDialogPlugin := SlotPlugin d |} with
        | Some (_, w2, t2) => Some (tt, w2, show_effects d o def ++ t2)
        | None => None
        end
    end.
Proof.
  intros Hd. unfold fire_show, show_listener, show_listener_low, bind, emit.
  rewrite (_show_run _ _ _ _ Hd). unfold show_effects.
  destruct (def_onShow def) as [cb|]; cbn.
  - destruct (call cb d _) as [[[[] w2] t2]|]; [|done]. cbn.
    by rewrite <- ?app_assoc, ?app_nil_r.
  - by rewrite ?app_nil_r.
Qed.

Lemma fire_show_None (w : World) (d : ref) (name : string)
    (def : DialogDefinition) :
  heap w !! d = None → fire_show call d name def w = None.
Proof.
  intros Hd. unfold fire_show, show_listener, _show, bind, deref, emit.
  rewrite Hd. reflexivity.
Qed.

(** [show] is [hide], then the firing of [show:<id>]. *)
Lemma show_unfold (w : World) (d : ref) (def : DialogDefinition) :
  show call d def w =
    match hide call d w with
    | Some (_, w1, t1) =>
        match fire_show call d ("show:" +:+ def_id def) def w1 with
        | Some (_, w2, t2) => Some (tt, w2, t1 ++ t2)
        | None => None
        end
    | None => None
    end.
Proof.
  unfold show, bind. destruct (hide call d w) as [[[[] w1] t1]|]; [|done].
  by destruct (fire_show call d _ def w1) as [[[[] w2] t2]|].
Qed.

Lemma view_close_hide (w : World) (d : ref) (r : unit * World * list Effect) :
  view_close call d w = Some r → hide call d w = Some r.
Proof.
  unfold view_close, bind, deref. destruct (heap w !! d) as [o|]; [|done].
  destruct (view o) as [v|]; [|done]. destruct (destroyed v); [done|].
  destruct (hide call d w) as [[[[] w1] t1]|]; [|done].
  rewrite app_nil_l. done.
Qed.

Lemma run_all_cons (op : Op) (ops : list Op) (w : World) :
  run_all call (op :: ops) w =
    match run call op w with
    | Some (_, w1, t1) =>
        match run_all call ops w1 with
        | Some (_, w2, t2) => Some (tt, w2, t1 ++ t2)
        | None => None
        end
    | None => None
    end.
Proof.
  cbn [run_all]. unfold bind.
  destruct (run call op w) as [[[[] w1] t1]|]; [|done].
  by destruct (run_all call ops w1) as [[[[] w2] t2]|].
Qed.

End AnyCallbacks.

(** ** Consistency is kept *)

Lemma consistent_initial : consistent initial.
Proof. split; cbn; intros; simplify_eq. Qed.

Lemma consistent_slot_empty_closed (w : World) (d : ref) (o : DialogObj) :
  consistent w → slot_empty w → heap w !! d = Some o → isOpen o ≠ Some true.
Proof.
  intros Hc Hs Hd Ho. apply (open_is_recorded _ Hc) in Hd; [|done].
  unfold slot_empty in Hs. rewrite Hd in Hs. done.
Qed.

Lemma consistent_constructor (w : World) (e : Editor) :
  consistent w →
  consistent {| heap := heap w ++ [new_Dialog e];
                _visibleDialogPlugin := _visibleDialogPlugin w |}.
Proof.
  intros Hc. split; cbn.
  - intros v Hv. destruct (recorded_is_open _ Hc v Hv) as (o & Ho & Hopen).
    exists o. split; [|done]. rewrite lookup_app_l; [done|by eapply lookup_lt_Some].
  - intros d o Hd Hopen. apply lookup_app_Some in Hd as [Hd|[_ Hd]].
    + by eapply open_is_recorded.
    + apply list_lookup_singleton_Some in Hd as [_ <-]. done.
  - intros d o Hd Hopen. apply lookup_app_Some in Hd as [Hd|[_ Hd]].
    + by eapply open_has_view.
    + apply list_lookup_singleton_Some in Hd as [_ <-]. done.
  - intros d o Hd Hopen. apply lookup_app_Some in Hd as [Hd|[_ Hd]].
    + by eapply closed_is_clean.
    + apply list_lookup_singleton_Some in Hd as [_ <-]. done.
Qed.

Lemma consistent_hidden (w : World) (v : ref) (o : DialogObj) :
  consistent w → _visibleDialogPlugin w = SlotPlugin v → heap w !! v = Some o →
  consistent {| heap := <[v := hidden o]> (heap w);
                _visibleDialogPlugin := SlotNull |}.
Proof.
  intros Hc Hs Hv.
  assert (Hothers : ∀ d o', <[v := hidden o]> (heap w) !! d = Some o' →
            isOpen o' ≠ Some true ∧ id o' = None ∧ _onHide o' = None).
  { intros d o' Hd. apply list_lookup_insert_Some in Hd
      as [(<- & <- & _)|[Hne Hd]]; [done|].
    assert (isOpen o' ≠ Some true) as Hclosed.
    { intros Hopen. apply (open_is_recorded _ Hc) in Hd; [|done]. congruence. }
    split; [done|]. by eapply closed_is_clean. }
  split; cbn.
  - intros; simplify_eq.
  - intros d o' Hd Hopen. by apply Hothers in Hd as [? _].
  - intros d o' Hd Hopen. by apply Hothers in Hd as [? _].
  - intros d o' Hd _. by apply Hothers in Hd as [_ ?].
Qed.

Lemma consistent_shown (w : World) (d : ref) (o : DialogObj)
    (def : DialogDefinition) :
  consistent w → slot_empty w → heap w !! d = Some o →
  consistent {| heap := <[d := shown def o]> (heap w);
                _visibleDialogPlugin := SlotPlugin d |}.
Proof.
  intros Hc Hs Hd. split; cbn.
  - intros v [= <-]. exists (shown def o). split; [|done].
    apply list_lookup_insert_eq. by eapply lookup_lt_Some.
  - intros d' o' Hd' Hopen. apply list_lookup_insert_Some in Hd'
      as [(<- & <- & _)|[Hne Hd']]; [done|].
    by destruct (consistent_slot_empty_closed _ _ _ Hc Hs Hd').
  - intros d' o' Hd' Hopen. apply list_lookup_insert_Some in Hd'
      as [(<- & <- & _)|[Hne Hd']]; [by eexists|].
    by destruct (consistent_slot_empty_closed _ _ _ Hc Hs Hd').
  - intros d' o' Hd' Hopen. apply list_lookup_insert_Some in Hd'
      as [(<- & <- & _)|[Hne Hd']]; [done|].
    by eapply closed_is_clean.
Qed.

(** ** Calls with callbacks that call nothing *)

Section QuietCallbacks.

Variable call : Callback → ref → M unit.
Hypothesis call_quiet : ∀ cb this w, call cb this w = Some (tt, w, []).

Lemma hide_run (w : World) (d v : ref) (o : DialogObj) (vw : DialogView) :
  _visibleDialogPlugin w = SlotPlugin v →
  heap w !! v = Some o → view o = Some vw →
  hide call d w =
    Some (tt, {| heap := <[v := hidden o]> (heap w);
                 _visibleDialogPlugin := SlotNull |}, hide_effects v o vw).
Proof.
  intros Hs Hv Hvw. rewrite (hide_unfold call _ _ _ _ _ Hs Hv Hvw).
  destruct (_onHide o) as [cb|]; [|done]. rewrite call_quiet. cbn.
  rewrite (alter_at _ _ _ (set_onHide (Some cb) (hidden o)))
    by (apply list_lookup_insert_eq; by eapply lookup_lt_Some).
  rewrite list_insert_insert_eq, app_nil_r. reflexivity.
Qed.

Lemma fire_show_run (w : World) (d : ref) (o : DialogObj)
    (def : DialogDefinition) :
  heap w !! d = Some o →
  fire_show call d ("show:" +:+ def_id def) def w =
    Some (tt, {| heap := <[d := shown def o]> (heap w);
                 _visibleDialogPlugin := SlotPlugin d |},
          show_effects d o def).
Proof.
  intros Hd. rewrite (fire_show_unfold call _ _ _ _ Hd).
  destruct (def_onShow def) as [cb|]; [|done]. rewrite call_quiet.
  by rewrite app_nil_r.
Qed.

(** In a consistent world [hide] either finds the slot empty, or hides the
    recorded instance, which is open and has a view. *)
Lemma hide_cases (w : World) (d : ref) :
  consistent w →
  (slot_empty w ∧ hide call d w = Some (tt, w, [])) ∨
  (∃ v o vw,
     _visibleDialogPlugin w = SlotPlugin v ∧ heap w !! v = Some o ∧
     view o = Some vw ∧ destroyed vw = false ∧ isOpen o = Some true ∧
     hide call d w =
       Some (tt, {| heap := <[v := hidden o]> (heap w);
                    _visibleDialogPlugin := SlotNull |}, hide_effects v o vw)).
Proof.
  intros Hc. destruct (_visibleDialogPlugin w) as [| |v] eqn:Hs.
  - left. assert (slot_empty w) by (unfold slot_empty; by rewrite Hs).
    split; [done|]. by apply hide_run_empty.
  - left. assert (slot_empty w) by (unfold slot_empty; by rewrite Hs).
    split; [done|]. by apply hide_run_empty.
  - right. destruct (recorded_is_open _ Hc v Hs) as (o & Ho & Hopen).
    destruct (open_has_view _ Hc v o Ho Hopen) as (vw & Hvw & Hlive).
    exists v, o, vw. repeat split; try done. by apply hide_run.
Qed.

Lemma hide_consistent (w w' : World) (d : ref) (t : list Effect) :
  consistent w → hide call d w = Some (tt, w', t) →
  consistent w' ∧ slot_empty w' ∧ length (heap w') = length (heap w).
Proof.
  intros Hc Hrun.
  destruct (hide_cases w d Hc)
    as [[Hs Hh]|(v & o & vw & Hs & Ho & Hvw & _ & _ & Hh)];
    rewrite Hh in Hrun; simplify_eq.
  - done.
  - split; [by apply consistent_hidden|]. split; [done|]. cbn.
    apply length_insert.
Qed.

Lemma show_consistent (w w' : World) (d : ref) (def : DialogDefinition)
    (t : list Effect) :
  consistent w → show call d def w = Some (tt, w', t) → consistent w'.
Proof.
  intros Hc Hrun. unfold show, bind in Hrun.
  destruct (hide call d w) as [[[[] w1] t1]|] eqn:Hh; [|done].
  destruct (hide_consistent _ _ _ _ Hc Hh) as (Hc1 & Hs1 & _).
  destruct (heap w1 !! d) as [o|] eqn:Hd.
  - rewrite (fire_show_run _ _ _ _ Hd) in Hrun. simplify_eq.
    by apply consistent_shown.
  - by rewrite (fire_show_None call _ _ _ _ Hd) in Hrun.
Qed.

Lemma run_consistent (op : Op) (w w' : World) (t : list Effect) :
  consistent w → run call op w = Some (tt, w', t) → consistent w'.
Proof.
  intros Hc Hrun. destruct op as [e|d def|d|d]; unfold run in Hrun.
  - unfold bind, constructor, ret in Hrun. simplify_eq.
    by apply consistent_constructor.
  - by eapply show_consistent.
  - by destruct (hide_consistent _ _ _ _ Hc Hrun).
  - apply view_close_hide in Hrun.
    by destruct (hide_consistent _ _ _ _ Hc Hrun).
Qed.

Lemma run_all_consistent (ops : list Op) (w w' : World) (t : list Effect) :
  consistent w → run_all call ops w = Some (tt, w', t) → consistent w'.
Proof.
  revert w t. induction ops as [|op ops IH]; intros w t Hc Hrun; cbn in Hrun.
  - unfold ret in Hrun. by simplify_eq.
  - unfold bind in Hrun.
    destruct (run call op w) as [[[[] w1] t1]|] eqn:Hop; [|done].
    destruct (run_all call ops w1) as [[[[] w2] t2]|] eqn:Hops; [|done].
    simplify_eq. eapply IH; [|done]. by eapply run_consistent.
Qed.

Lemma reachable_consistent (w : World) : reachable_via call w → consistent w.
Proof.
  intros (ops & t & Hrun).
  eapply run_all_consistent; [apply consistent_initial|done].
Qed.

(** ** [show] in a consistent world *)

Lemma show_run (w : World) (d : ref) (o : DialogObj) (def : DialogDefinition) :
  consistent w → heap w !! d = Some o →
  ∃ w1 t1 o1,
    hide call d w = Some (tt, w1, t1) ∧ consistent w1 ∧ slot_empty w1 ∧
    heap w1 !! d = Some o1 ∧ editor o1 = editor o ∧
    fire_show call d ("show:" +:+ def_id def) def w1 =
      Some (tt, {| heap := <[d := shown def o1]> (heap w1);
                   _visibleDialogPlugin := SlotPlugin d |},
            show_effects d o1 def) ∧
    show call d def w =
      Some (tt, {| heap := <[d := shown def o1]> (heap w1);
                   _visibleDialogPlugin := SlotPlugin d |},
            t1 ++ show_effects d o1 def).
Proof.
  intros Hc Hd.
  assert (∃ w1 t1, hide call d w = Some (tt, w1, t1)) as (w1 & t1 & Hh).
  { destruct (hide_cases w d Hc) as [[_ ->]|(? & ? & ? & _ & _ & _ & _ & _ & ->)];
      eauto. }
  destruct (hide_consistent _ _ _ _ Hc Hh) as (Hc1 & Hs1 & Hlen).
  assert (∃ o1, heap w1 !! d = Some o1 ∧ editor o1 = editor o) as (o1 & Hd1 & He).
  { destruct (hide_cases w d Hc)
      as [[_ Hh']|(v & ov & vw & _ & Hv & _ & _ & _ & Hh')];
      rewrite Hh' in Hh; simplify_eq; cbn.
    - by exists o.
    - destruct (decide (v = d)) as [->|Hne].
      + simplify_eq. exists (hidden o). split; [|done].
        apply list_lookup_insert_eq. by eapply lookup_lt_Some.
      + exists o. split; [|done]. by rewrite list_lookup_insert_ne. }
  exists w1, t1, o1. do 5 (split; [done|]). split.
  - by apply fire_show_run.
  - unfold show, bind. rewrite Hh, (fire_show_run _ _ _ _ Hd1). reflexivity.
Qed.

(** ** The three states *)

Lemma shown_clean (def : DialogDefinition) (o : DialogObj) :
  _onHide o = None → shown def o = opened (editor o) def.
Proof.
  intros Hcb. unfold shown, opened. rewrite Hcb. by destruct (def_onHide def).
Qed.

Lemma canonical_open (w : World) (d : ref) (o : DialogObj) :
  all_canonical w → heap w !! d = Some o → isOpen o = Some true →
  ∃ def, o = opened (editor o) def.
Proof.
  intros Hcan Hd Hopen.
  destruct (Hcan d o Hd) as [Ho|[Ho|[def Ho]]]; [|done|];
    rewrite Ho in Hopen; done.
Qed.

Lemma all_canonical_initial : all_canonical initial.
Proof. intros d o Hd. done. Qed.

Lemma all_canonical_insert (w : World) (d : ref) (o : DialogObj) (s : Slot) :
  all_canonical w →
  (o = new_Dialog (editor o) ∨ (∃ def, o = opened (editor o) def) ∨
   (∃ def, o = closed (editor o) def)) →
  all_canonical {| heap := <[d := o]> (heap w); _visibleDialogPlugin := s |}.
Proof.
  intros Hcan Ho i oi Hi. cbn in Hi.
  apply list_lookup_insert_Some in Hi as [(<- & <- & _)|[_ Hi]]; [done|].
  by eapply Hcan.
Qed.

Lemma hide_canonical (w w' : World) (d : ref) (t : list Effect) :
  consistent w → all_canonical w → hide call d w = Some (tt, w', t) →
  all_canonical w'.
Proof.
  intros Hc Hcan Hrun.
  destruct (hide_cases w d Hc)
    as [[_ Hh]|(v & o & vw & _ & Hv & _ & _ & Hopen & Hh)];
    rewrite Hh in Hrun; simplify_eq; [done|].
  apply all_canonical_insert; [done|].
  destruct (canonical_open _ _ _ Hcan Hv Hopen) as [def Ho].
  right. right. exists def. rewrite Ho. reflexivity.
Qed.

Lemma show_canonical (w w' : World) (d : ref) (def : DialogDefinition)
    (t : list Effect) :
  consistent w → all_canonical w → show call d def w = Some (tt, w', t) →
  all_canonical w' ∧
  ∃ o, heap w !! d = Some o ∧ heap w' !! d = Some (opened (editor o) def).
Proof.
  intros Hc Hcan Hrun.
  destruct (heap w !! d) as [o|] eqn:Hd.
  - destruct (show_run w d o def Hc Hd)
      as (w1 & t1 & o1 & Hh & Hc1 & Hs1 & Hd1 & He & _ & Hshow).
    rewrite Hshow in Hrun. simplify_eq.
    pose proof (hide_canonical _ _ _ _ Hc Hcan Hh) as Hcan1.
    assert (shown def o1 = opened (editor o) def) as Hshown.
    { rewrite <- He. apply shown_clean.
      by destruct (closed_is_clean _ Hc1 d o1 Hd1
                     (consistent_slot_empty_closed _ _ _ Hc1 Hs1 Hd1)). }
    rewrite Hshown. split.
    + apply all_canonical_insert; [done|]. right. left. by exists def.
    + exists o. split; [done|]. cbn. apply list_lookup_insert_eq.
      by eapply lookup_lt_Some.
  - exfalso. unfold show, bind in Hrun.
    destruct (hide call d w) as [[[[] w1] t1]|] eqn:Hh; [|done].
    destruct (hide_consistent _ _ _ _ Hc Hh) as (_ & _ & Hlen).
    rewrite fire_show_None in Hrun; [done|].
    apply lookup_ge_None. rewrite Hlen. by apply lookup_ge_None.
Qed.

Lemma run_canonical (op : Op) (w w' : World) (t : list Effect) :
  consistent w → all_canonical w → run call op w = Some (tt, w', t) →
  all_canonical w'.
Proof.
  intros Hc Hcan Hrun. destruct op as [e|d def|d|d]; unfold run in Hrun.
  - unfold bind, constructor, ret in Hrun. simplify_eq.
    intros i oi Hi. cbn in Hi. apply lookup_app_Some in Hi as [Hi|[_ Hi]].
    + by eapply Hcan.
    + apply list_lookup_singleton_Some in Hi as [_ <-]. by left.
  - by destruct (show_canonical _ _ _ _ _ Hc Hcan Hrun).
  - by eapply hide_canonical.
  - apply view_close_hide in Hrun. by eapply hide_canonical.
Qed.

Lemma show_result (w : World) (d : ref) (o : DialogObj)
    (def : DialogDefinition) :
  consistent w → all_canonical w → heap w !! d = Some o →
  ∃ w' t,
    show call d def w = Some (tt, w', t) ∧
    heap w' !! d = Some (opened (editor o) def).
Proof.
  intros Hc Hcan Hd.
  destruct (show_run w d o def Hc Hd)
    as (w1 & t1 & o1 & _ & _ & _ & _ & _ & _ & Hshow).
  set (w' := {| heap := <[d := shown def o1]> (heap w1);
                _visibleDialogPlugin := SlotPlugin d |}) in *.
  set (t := t1 ++ show_effects d o1 def) in *.
  exists w', t. split; [exact Hshow|].
  destruct (show_canonical _ _ _ _ _ Hc Hcan Hshow)
    as (_ & o' & Hd' & Hres).
  by simplify_eq.
Qed.

(** ** What [show] and [hide] leave alone *)

Lemma show_needs_receiver (w : World) (d : ref) (def : DialogDefinition)
    (r : unit * World * list Effect) :
  consistent w → show call d def w = Some r → is_Some (heap w !! d).
Proof.
  intros Hc Hrun. destruct (heap w !! d) as [o|] eqn:Hd; [by eexists|].
  exfalso. unfold show, bind in Hrun.
  destruct (hide call d w) as [[[[] w1] t1]|] eqn:Hh; [|done].
  destruct (hide_consistent _ _ _ _ Hc Hh) as (_ & _ & Hlen).
  rewrite fire_show_None in Hrun; [done|].
  apply lookup_ge_None. rewrite Hlen. by apply lookup_ge_None.
Qed.

Lemma hide_frame (w w' : World) (d : ref) (t : list Effect) :
  consistent w → hide call d w = Some (tt, w', t) →
  length (heap w') = length (heap w) ∧
  (∀ i oi, heap w !! i = Some oi →
     ∃ oi', heap w' !! i = Some oi' ∧ editor oi' = editor oi) ∧
  (∀ i, _visibleDialogPlugin w ≠ SlotPlugin i → heap w' !! i = heap w !! i).
Proof.
  intros Hc Hrun.
  destruct (hide_cases w d Hc)
    as [[_ Hh]|(v & o & vw & Hs & Hv & _ & _ & _ & Hh)];
    rewrite Hh in Hrun; simplify_eq; cbn.
  - split; [done|]. split; [eauto|done].
  - split; [apply length_insert|]. split.
    + intros i oi Hi. destruct (decide (v = i)) as [<-|Hne].
      * rewrite Hv in Hi. injection Hi as <-. exists (hidden o).
        split; [|done].
        apply list_lookup_insert_eq. by eapply lookup_lt_Some.
      * exists oi. split; [|done]. by rewrite list_lookup_insert_ne.
    + intros i Hi. apply list_lookup_insert_ne. congruence.
Qed.

(** ** Registrations *)

Lemma filter_ne_self (v : nat * nat) : filter (λ u, u ≠ v) [v] = [].
Proof. rewrite filter_cons. by destruct (decide (v ≠ v)). Qed.

Lemma hide_effects_unregister (r : Registry) (v : ref) (o : DialogObj)
    (vw : DialogView) :
  fold_left (register r) (hide_effects v o vw) [(editor o, v)] = [].
Proof.
  unfold hide_effects, _hide_effects.
  destruct r, (has_contentView vw), (_onHide o); cbn;
    unfold register; cbn; apply filter_ne_self.
Qed.

Lemma show_effects_register (r : Registry) (d : ref) (o : DialogObj)
    (def : DialogDefinition) :
  fold_left (register r) (show_effects d o def) [] = [(editor o, d)].
Proof.
  unfold show_effects, _show_effects.
  by destruct r, (def_onShow def).
Qed.

Lemma visible_view_slot_empty (w : World) : slot_empty w → visible_view w = [].
Proof.
  unfold slot_empty, visible_view. by destruct (_visibleDialogPlugin w).
Qed.

Lemma hide_registers (w w' : World) (d : ref) (t : list Effect) (r : Registry) :
  consistent w → hide call d w = Some (tt, w', t) →
  fold_left (register r) t (visible_view w) = visible_view w'.
Proof.
  intros Hc Hrun.
  destruct (hide_cases w d Hc)
    as [[_ Hh]|(v & o & vw & Hs & Hv & _ & _ & _ & Hh)];
    rewrite Hh in Hrun; simplify_eq; [done|].
  unfold visible_view at 1. rewrite Hs, Hv. apply hide_effects_unregister.
Qed.

Lemma run_registers (op : Op) (w w' : World) (t : list Effect) (r : Registry) :
  consistent w → run call op w = Some (tt, w', t) →
  fold_left (register r) t (visible_view w) = visible_view w'.
Proof.
  intros Hc Hrun. destruct op as [e|d def|d|d]; unfold run in Hrun.
  - unfold bind, constructor, ret in Hrun. simplify_eq. cbn.
    unfold visible_view. cbn.
    destruct (_visibleDialogPlugin w) as [| |v] eqn:Hs; [done..|].
    destruct (recorded_is_open _ Hc v Hs) as (o & Hv & _).
    rewrite lookup_app_l by (by eapply lookup_lt_Some). done.
  - destruct (show_needs_receiver _ _ _ _ Hc Hrun) as [o Hd].
    destruct (show_run w d o def Hc Hd)
      as (w1 & t1 & o1 & Hh & _ & Hs1 & Hd1 & _ & _ & Hshow).
    rewrite Hshow in Hrun. simplify_eq.
    rewrite fold_left_app, (hide_registers _ _ _ _ r Hc Hh).
    rewrite (visible_view_slot_empty _ Hs1), show_effects_register.
    unfold visible_view. cbn.
    rewrite list_lookup_insert_eq by (by eapply lookup_lt_Some). done.
  - exact (hide_registers _ _ _ _ r Hc Hrun).
  - apply view_close_hide in Hrun. exact (hide_registers _ _ _ _ r Hc Hrun).
Qed.

Lemma run_all_registers (ops : list Op) (w w' : World) (t : list Effect)
    (r : Registry) :
  consistent w → run_all call ops w = Some (tt, w', t) →
  fold_left (register r) t (visible_view w) = visible_view w'.
Proof.
  revert w t. induction ops as [|op ops IH]; intros w t Hc Hrun;
    cbn in Hrun.
  - unfold ret in Hrun. by simplify_eq.
  - unfold bind in Hrun.
    destruct (run call op w) as [[[[] w1] t1]|] eqn:Hop; [|done].
    destruct (run_all call ops w1) as [[[[] w2] t2]|] eqn:Hops; [|done].
    simplify_eq. rewrite fold_left_app, (run_registers _ _ _ _ r Hc Hop).
    apply IH; [|done]. by eapply run_consistent.
Qed.

(** ** The events fired *)

Lemma follow_all_app (shown : option (ref * string))
    (es1 es2 : list (ref * string)) :
  follow_all shown (es1 ++ es2) =
    match follow_all shown es1 with
    | Some shown => follow_all shown es2
    | None => None
    end.
Proof.
  revert shown. induction es1 as [|e es1 IH]; intros shown; [done|].
  cbn [app follow_all]. by destruct (follow shown e).
Qed.

Lemma fired_hide_effects (v : ref) (o : DialogObj) (vw : DialogView) :
  fired (hide_effects v o vw) = [(v, "hide:" +:+ id_text (id o))].
Proof.
  unfold hide_effects, _hide_effects.
  by destruct (has_contentView vw), (_onHide o).
Qed.

Lemma fired_show_effects (d : ref) (o : DialogObj) (def : DialogDefinition) :
  fired (show_effects d o def) = [(d, "show:" +:+ def_id def)].
Proof. unfold show_effects, _show_effects. by destruct (def_onShow def). Qed.

Lemma shown_dialog_slot_empty (w : World) : slot_empty w → shown_dialog w = None.
Proof.
  unfold slot_empty, shown_dialog. by destruct (_visibleDialogPlugin w).
Qed.

Lemma hide_follows (w w' : World) (d : ref) (t : list Effect) :
  consistent w → all_canonical w → hide call d w = Some (tt, w', t) →
  follow_all (shown_dialog w) (fired t) = Some (shown_dialog w').
Proof.
  intros Hc Hcan Hrun.
  destruct (hide_cases w d Hc)
    as [[_ Hh]|(v & o & vw & Hs & Hv & _ & _ & Hopen & Hh)];
    rewrite Hh in Hrun; simplify_eq; [done|].
  rewrite fired_hide_effects. unfold shown_dialog at 1. rewrite Hs, Hv.
  destruct (canonical_open _ _ _ Hcan Hv Hopen) as [def ->]. cbn.
  by rewrite decide_True.
Qed.

Lemma run_follows (op : Op) (w w' : World) (t : list Effect) :
  consistent w → all_canonical w → run call op w = Some (tt, w', t) →
  follow_all (shown_dialog w) (fired t) = Some (shown_dialog w').
Proof.
  intros Hc Hcan Hrun. destruct op as [e|d def|d|d]; unfold run in Hrun.
  - unfold bind, constructor, ret in Hrun. simplify_eq. cbn.
    unfold shown_dialog. cbn.
    destruct (_visibleDialogPlugin w) as [| |v] eqn:Hs; [done..|].
    destruct (recorded_is_open _ Hc v Hs) as (o & Hv & _).
    rewrite lookup_app_l by (by eapply lookup_lt_Some). done.
  - destruct (show_needs_receiver _ _ _ _ Hc Hrun) as [o Hd].
    destruct (show_run w d o def Hc Hd)
      as (w1 & t1 & o1 & Hh & _ & Hs1 & Hd1 & _ & _ & Hshow).
    rewrite Hshow in Hrun. simplify_eq.
    unfold fired. rewrite omap_app. fold (fired t1).
    fold (fired (show_effects d o1 def)).
    rewrite follow_all_app, (hide_follows _ _ _ _ Hc Hcan Hh).
    rewrite (shown_dialog_slot_empty _ Hs1), fired_show_effects.
    unfold shown_dialog. cbn.
    rewrite list_lookup_insert_eq by (by eapply lookup_lt_Some). done.
  - by eapply hide_follows.
  - apply view_close_hide in Hrun. by eapply hide_follows.
Qed.

Lemma run_all_follows (ops : list Op) (w w' : World) (t : list Effect) :
  consistent w → all_canonical w → run_all call ops w = Some (tt, w', t) →
  follow_all (shown_dialog w) (fired t) = Some (shown_dialog w').
Proof.
  revert w t. induction ops as [|op ops IH]; intros w t Hc Hcan Hrun;
    cbn in Hrun.
  - unfold ret in Hrun. by simplify_eq.
  - unfold bind in Hrun.
    destruct (run call op w) as [[[[] w1] t1]|] eqn:Hop; [|done].
    destruct (run_all call ops w1) as [[[[] w2] t2]|] eqn:Hops; [|done].
    simplify_eq. unfold fired. rewrite omap_app. fold (fired t1) (fired t2).
    rewrite follow_all_app, (run_follows _ _ _ _ Hc Hcan Hop).
    apply IH; [by eapply run_consistent|by eapply run_canonical|done].
Qed.


End QuietCallbacks.

(** ** Calls with callbacks that call the plugins *)

Lemma canonical_new (e : Editor) : canonical (new_Dialog e).
Proof. by left. Qed.

Lemma canonical_opened (e : Editor) (def : DialogDefinition) :
  canonical (opened e def).
Proof. right. left. by exists def. Qed.

Lemma canonical_closed (e : Editor) (def : DialogDefinition) :
  canonical (closed e def).
Proof. right. right. by exists def. Qed.

(** [_show] leaves the instance showing a definition: the one it is given,
    or that one with the callback that was still registered. *)
Lemma shown_opened (def : DialogDefinition) (o : DialogObj) :
  shown def o =
    opened (editor o)
      (with_onHide
         (match def_onHide def with Some cb => Some cb | None => _onHide o end)
         def).
Proof. reflexivity. Qed.

Lemma sound_open (w : World) (d : ref) (o : DialogObj) :
  sound w → heap w !! d = Some o → isOpen o = Some true →
  ∃ def, o = opened (editor o) def.
Proof.
  intros Hw Hd Hopen.
  destruct (sound_instances _ Hw d o Hd)
    as [[Ho|[[def Ho]|[def Ho]]]|(def & cb & Ho)];
    rewrite Ho in Hopen; try done. by exists def.
Qed.

(** Once its callback has returned and is forgotten, an instance is in one
    of the three states. *)
Lemma forgotten_canonical (o : DialogObj) :
  (canonical o ∨ ∃ def cb, o = pending (editor o) def cb) →
  canonical (set_onHide None o).
Proof.
  intros [[Ho|[[def Ho]|[def Ho]]]|(def & cb & Ho)]; rewrite Ho.
  - apply canonical_new.
  - apply (canonical_opened _ (with_onHide None def)).
  - apply canonical_closed.
  - apply canonical_closed.
Qed.

Lemma sound_initial : sound initial.
Proof. split; intros ? ?; done. Qed.

Lemma kept_refl (w : World) : kept w w.
Proof.
  split.
  - intros d o Hd. by exists o.
  - intros d o Hd Hnone. congruence.
Qed.

Lemma kept_trans (w1 w2 w3 : World) : kept w1 w2 → kept w2 w3 → kept w1 w3.
Proof.
  intros H12 H23. split.
  - intros d o1 Hd1.
    destruct (kept_instances _ _ H12 d o1 Hd1) as (o2 & Hd2 & He2 & Hc2).
    destruct (kept_instances _ _ H23 d o2 Hd2) as (o3 & Hd3 & He3 & Hc3).
    exists o3. split; [done|]. split; [congruence|auto].
  - intros d o3 Hd3 Hd1. destruct (heap w2 !! d) as [o2|] eqn:Hd2.
    + destruct (kept_instances _ _ H23 d o2 Hd2) as (o3' & Hd3' & _ & Hc3).
      simplify_eq. apply Hc3. by eapply (kept_new _ _ H12).
    + by eapply (kept_new _ _ H23).
Qed.

(** One instance is written, and left in one of the three states if it was
    in one. *)
Lemma kept_insert (w : World) (d : ref) (o o' : DialogObj) (s : Slot) :
  heap w !! d = Some o → editor o' = editor o → (canonical o → canonical o') →
  kept w {| heap := <[d := o']> (heap w); _visibleDialogPlugin := s |}.
Proof.
  intros Hd He Hc. split; cbn.
  - intros i oi Hi. destruct (decide (d = i)) as [<-|Hne].
    + simplify_eq. exists o'. split; [|done].
      apply list_lookup_insert_eq. by eapply lookup_lt_Some.
    + exists oi. by rewrite list_lookup_insert_ne.
  - intros i oi Hi Hnone. exfalso.
    apply lookup_lt_Some in Hi. rewrite length_insert in Hi.
    apply lookup_ge_None in Hnone. lia.
Qed.

(** One instance is written before a call and again after it, the second
    time into one of the three states. *)
Lemma kept_around (w w1 w2 : World) (v : ref) (o p o2 o2' : DialogObj)
    (s : Slot) :
  heap w !! v = Some o → heap w1 = <[v := p]> (heap w) →
  editor p = editor o → kept w1 w2 → heap w2 !! v = Some o2 →
  editor o2' = editor o2 → canonical o2' →
  kept w {| heap := <[v := o2']> (heap w2); _visibleDialogPlugin := s |}.
Proof.
  intros Hv Hw1 Hp Hk Hv2 He Hc.
  assert (Hlt : v < length (heap w)) by (by eapply lookup_lt_Some).
  assert (Hv1 : heap w1 !! v = Some p)
    by (rewrite Hw1; by apply list_lookup_insert_eq).
  split; cbn.
  - intros d od Hd. destruct (decide (v = d)) as [<-|Hne].
    + simplify_eq. exists o2'. split.
      { apply list_lookup_insert_eq. by eapply lookup_lt_Some. }
      split; [|done].
      destruct (kept_instances _ _ Hk v p Hv1) as (o2'' & Hv2' & He2 & _).
      simplify_eq. congruence.
    + assert (heap w1 !! d = Some od) as Hd1
        by (by rewrite Hw1, list_lookup_insert_ne).
      destruct (kept_instances _ _ Hk d od Hd1) as (od2 & Hd2 & He2 & Hc2).
      exists od2. by rewrite list_lookup_insert_ne.
  - intros d od Hd Hnone. destruct (decide (v = d)) as [<-|Hne];
      [congruence|].
    rewrite list_lookup_insert_ne in Hd by done.
    apply (kept_new _ _ Hk d od Hd).
    apply lookup_ge_None. rewrite Hw1, length_insert.
    by apply lookup_ge_None.
Qed.

Lemma sound_insert (w : World) (d : ref) (o' : DialogObj) (s : Slot) :
  sound w →
  (canonical o' ∨ ∃ def cb, o' = pending (editor o') def cb) →
  (∀ v, s = SlotPlugin v →
     if decide (v = d) then isOpen o' = Some true ∧ d < length (heap w)
     else _visibleDialogPlugin w = SlotPlugin v) →
  sound {| heap := <[d := o']> (heap w); _visibleDialogPlugin := s |}.
Proof.
  intros Hw Ho' Hs. split; cbn.
  - intros v Hv. specialize (Hs v Hv). destruct (decide (v = d)) as [->|Hne].
    + destruct Hs as [Hopen Hlt]. exists o'. split; [|done].
      by apply list_lookup_insert_eq.
    + destruct (sound_recorded _ Hw v Hs) as (o & Ho & Hopen).
      exists o. split; [|done]. by rewrite list_lookup_insert_ne.
  - intros i oi Hi.
    apply list_lookup_insert_Some in Hi as [(<- & <- & _)|[_ Hi]]; [done|].
    by eapply sound_instances.
Qed.

Section Reentrant.

Variable call : Callback → ref → M unit.

(** What is asked of the callbacks: nothing but that they act on the
    instances through calls that keep worlds sound. *)
Hypothesis call_sound : ∀ cb this w w' t,
  sound w → call cb this w = Some (tt, w', t) → sound w' ∧ kept w w'.

Lemma hide_sound (w w' : World) (d : ref) (t : list Effect) :
  sound w → hide call d w = Some (tt, w', t) → sound w' ∧ kept w w'.
Proof.
  intros Hw Hrun. destruct (_visibleDialogPlugin w) as [| |v] eqn:Hs.
  1,2: rewrite hide_run_empty in Hrun
         by (unfold slot_empty; by rewrite Hs);
       simplify_eq; split; [done|apply kept_refl].
  destruct (sound_recorded _ Hw v Hs) as (o & Hv & Hopen).
  destruct (sound_open _ _ _ Hw Hv Hopen) as [def Ho].
  assert (view o = Some (shown_view def)) as Hvw by (by rewrite Ho).
  rewrite (hide_unfold call _ _ _ _ _ Hs Hv Hvw) in Hrun.
  assert (Hlt : v < length (heap w)) by (by eapply lookup_lt_Some).
  destruct (_onHide o) as [cb|] eqn:Hcb.
  - assert (set_onHide (Some cb) (hidden o) = pending (editor o) def cb)
      as Hpending by (by rewrite Ho).
    rewrite Hpending in Hrun.
    set (w1 := {| heap := <[v := pending (editor o) def cb]> (heap w);
                  _visibleDialogPlugin := SlotNull |}) in *.
    assert (sound w1) as Hw1.
    { apply sound_insert; [done| |done]. right. by exists def, cb. }
    destruct (call cb v w1) as [[[[] w2] t2]|] eqn:Hcall; [|done].
    destruct (call_sound _ _ _ _ _ Hw1 Hcall) as [Hw2 Hk2]. simplify_eq.
    destruct (kept_instances _ _ Hk2 v (pending (editor o) def cb))
      as (o2 & Hv2 & He2 & _).
    { cbn. by apply list_lookup_insert_eq. }
    rewrite (alter_at _ _ _ _ Hv2). split.
    + apply sound_insert; [done| |].
      * left. apply forgotten_canonical. by eapply sound_instances.
      * intros x Hx. destruct (decide (x = v)) as [->|Hne]; [|done].
        destruct (sound_recorded _ Hw2 v Hx) as (o2' & Hv2' & Hopen2).
        simplify_eq. split; [done|by eapply lookup_lt_Some].
    + apply (kept_around w w1 w2 v o (pending (editor o) def cb) o2);
        try done.
      apply forgotten_canonical. by eapply sound_instances.
  - simplify_eq.
    assert (hidden o = closed (editor o) def) as Hclosed by (by rewrite Ho).
    rewrite Hclosed. split.
    + apply sound_insert; [done| |done]. left. apply canonical_closed.
    + apply (kept_insert _ _ o); [done|done|]. intros _.
      apply canonical_closed.
Qed.

Lemma show_sound (w w' : World) (d : ref) (def : DialogDefinition)
    (t : list Effect) :
  sound w → show call d def w = Some (tt, w', t) → sound w' ∧ kept w w'.
Proof.
  intros Hw Hrun. rewrite show_unfold in Hrun.
  destruct (hide call d w) as [[[[] w1] t1]|] eqn:Hh; [|done].
  destruct (hide_sound _ _ _ _ Hw Hh) as [Hw1 Hk1].
  destruct (heap w1 !! d) as [o1|] eqn:Hd1;
    [|by rewrite (fire_show_None call _ _ _ _ Hd1) in Hrun].
  rewrite (fire_show_unfold call _ _ _ _ Hd1), shown_opened in Hrun.
  set (def' := with_onHide _ def) in *.
  set (w2 := {| heap := <[d := opened (editor o1) def']> (heap w1);
                _visibleDialogPlugin := SlotPlugin d |}) in *.
  assert (sound w2) as Hw2.
  { apply sound_insert; [done|left; apply canonical_opened|].
    intros v [= <-]. rewrite decide_True by done.
    split; [done|by eapply lookup_lt_Some]. }
  assert (kept w1 w2) as Hk2.
  { apply (kept_insert _ _ o1); [done|done|]. intros _.
    apply canonical_opened. }
  destruct (def_onShow def) as [cb|].
  - destruct (call cb d w2) as [[[[] w3] t3]|] eqn:Hcall; [|done].
    destruct (call_sound _ _ _ _ _ Hw2 Hcall) as [Hw3 Hk3]. simplify_eq.
    split; [done|]. eauto using kept_trans.
  - simplify_eq. split; [done|]. eauto using kept_trans.
Qed.

Lemma constructor_sound (w : World) (e : Editor) :
  sound w →
  sound {| heap := heap w ++ [new_Dialog e];
           _visibleDialogPlugin := _visibleDialogPlugin w |} ∧
  kept w {| heap := heap w ++ [new_Dialog e];
            _visibleDialogPlugin := _visibleDialogPlugin w |}.
Proof.
  intros Hw. split; split; cbn.
  - intros v Hv. destruct (sound_recorded _ Hw v Hv) as (o & Ho & Hopen).
    exists o. split; [|done].
    rewrite lookup_app_l; [done|by eapply lookup_lt_Some].
  - intros d o Hd. apply lookup_app_Some in Hd as [Hd|[_ Hd]].
    + by eapply sound_instances.
    + apply list_lookup_singleton_Some in Hd as [_ <-]. left.
      apply canonical_new.
  - intros d o Hd. exists o. split; [|done].
    rewrite lookup_app_l; [done|by eapply lookup_lt_Some].
  - intros d o Hd Hnone. apply lookup_app_Some in Hd as [Hd|[_ Hd]].
    + congruence.
    + apply list_lookup_singleton_Some in Hd as [_ <-]. apply canonical_new.
Qed.

Lemma run_sound (op : Op) (w w' : World) (t : list Effect) :
  sound w → run call op w = Some (tt, w', t) → sound w' ∧ kept w w'.
Proof.
  intros Hw Hrun. destruct op as [e|d def|d|d]; unfold run in Hrun.
  - unfold bind, constructor, ret in Hrun. simplify_eq.
    by apply constructor_sound.
  - by eapply show_sound.
  - by eapply hide_sound.
  - apply view_close_hide in Hrun. by eapply hide_sound.
Qed.

Lemma run_all_sound (ops : list Op) (w w' : World) (t : list Effect) :
  sound w → run_all call ops w = Some (tt, w', t) → sound w' ∧ kept w w'.
Proof.
  revert w t. induction ops as [|op ops IH]; intros w t Hw Hrun.
  - cbn in Hrun. unfold ret in Hrun. simplify_eq.
    split; [done|apply kept_refl].
  - rewrite run_all_cons in Hrun.
    destruct (run call op w) as [[[[] w1] t1]|] eqn:Hop; [|done].
    destruct (run_all call ops w1) as [[[[] w2] t2]|] eqn:Hops; [|done].
    simplify_eq. destruct (run_sound _ _ _ _ Hw Hop) as [Hw1 Hk1].
    destruct (IH _ _ Hw1 Hops) as [Hw2 Hk2].
    split; [done|]. eauto using kept_trans.
Qed.

End Reentrant.

(** Whatever the callbacks call, and however deep. *)
Lemma user_code_sound (body : UserCode) (fuel : nat) :
  ∀ cb this w w' t,
    sound w → user_code body fuel cb this w = Some (tt, w', t) →
    sound w' ∧ kept w w'.
Proof.
  induction fuel as [|fuel IH]; intros cb this w w' t Hw Hrun; cbn in Hrun;
    destruct (body cb this w) as [|op ops]; cbn in Hrun; unfold ret in Hrun;
    simplify_eq; try (split; [done|apply kept_refl]).
  by eapply (run_all_sound _ IH (op :: ops)).
Qed.

Lemma reachable_sound (w : World) :
  reachable w → sound w ∧ all_canonical w.
Proof.
  intros (body & fuel & ops & t & Hrun).
  destruct (run_all_sound _ (user_code_sound body fuel) ops initial w t
              sound_initial Hrun) as [Hw Hk].
  split; [done|]. intros d o Hd. by eapply (kept_new _ _ Hk).
Qed.

(** Callbacks that call nothing return at once. *)
Lemma user_code_quiet (body : UserCode) (fuel : nat) :
  quiet body → ∀ cb this w, user_code body fuel cb this w = Some (tt, w, []).
Proof.
  intros Hq cb this w. destruct fuel; cbn; by rewrite Hq.
Qed.

(** ** Calls whose own callbacks call nothing *)

Section SilentCallbacks.

Variable call : Callback → ref → M unit.

Lemma hide_silent (w : World) (d v : ref) (o : DialogObj) (vw : DialogView) :
  _visibleDialogPlugin w = SlotPlugin v →
  heap w !! v = Some o → view o = Some vw →
  (∀ cb w0, _onHide o = Some cb → call cb v w0 = Some (tt, w0, [])) →
  hide call d w =
    Some (tt, {| heap := <[v := hidden o]> (heap w);
                 _visibleDialogPlugin := SlotNull |}, hide_effects v o vw).
Proof.
  intros Hs Hv Hvw Hcall. rewrite (hide_unfold call _ _ _ _ _ Hs Hv Hvw).
  destruct (_onHide o) as [cb|]; [|done]. rewrite (Hcall cb _ eq_refl). cbn.
  rewrite (alter_at _ _ _ (set_onHide (Some cb) (hidden o)))
    by (apply list_lookup_insert_eq; by eapply lookup_lt_Some).
  rewrite list_insert_insert_eq, app_nil_r. reflexivity.
Qed.

Lemma hide_silent_no_view (w : World) (d v : ref) (o : DialogObj) :
  _visibleDialogPlugin w = SlotPlugin v →
  heap w !! v = Some o → view o = None →
  (∀ cb w0, _onHide o = Some cb → call cb v w0 = Some (tt, w0, [])) →
  hide call d w =
    Some (tt, {| heap := <[v := set_onHide None o]> (heap w);
                 _visibleDialogPlugin := SlotPlugin v |},
          Fire v ("hide:" +:+ id_text (id o)) ::
          match _onHide o with Some cb => [CallOnHide cb v] | None => [] end).
Proof.
  intros Hs Hv Hvw Hcall. rewrite (hide_unfold_no_view call _ _ _ _ Hs Hv Hvw).
  destruct w as [h s]. cbn in *. subst s.
  destruct (_onHide o) as [cb|] eqn:Hcb.
  - rewrite (Hcall cb _ eq_refl). cbn. by rewrite (alter_at _ _ _ _ Hv).
  - assert (set_onHide None o = o) as Hsame
      by (destruct o; cbn in *; by subst).
    by rewrite Hsame, (list_insert_id _ _ _ Hv).
Qed.


Lemma sound_nothing_visible (w : World) :
  sound w → nothing_visible w → slot_empty w.
Proof.
  intros Hw. unfold nothing_visible, slot_empty.
  destruct (_visibleDialogPlugin w) as [| |v] eqn:Hs; [done..|].
  intros (o & Hv & Hview).
  destruct (sound_recorded _ Hw v Hs) as (o' & Hv' & Hopen).
  destruct (sound_open _ _ _ Hw Hv' Hopen) as [def Ho]. simplify_eq.
  by rewrite Ho in Hview.
Qed.

(** [hide] in a sound world, the callback of the visible dialog calling
    nothing. *)
Lemma hide_silent_cases (w : World) (d : ref) :
  sound w →
  (∀ v o cb w0, _visibleDialogPlugin w = SlotPlugin v → heap w !! v = Some o →
     _onHide o = Some cb → call cb v w0 = Some (tt, w0, [])) →
  (slot_empty w ∧ hide call d w = Some (tt, w, [])) ∨
  (∃ v o def,
     _visibleDialogPlugin w = SlotPlugin v ∧ heap w !! v = Some o ∧
     o = opened (editor o) def ∧
     hide call d w =
       Some (tt, {| heap := <[v := hidden o]> (heap w);
                    _visibleDialogPlugin := SlotNull |},
             hide_effects v o (shown_view def))).
Proof.
  intros Hw Hcall. destruct (_visibleDialogPlugin w) as [| |v] eqn:Hs.
  1,2: left; assert (slot_empty w) as He
         by (unfold slot_empty; by rewrite Hs);
       split; [done|by apply hide_run_empty].
  right. destruct (sound_recorded _ Hw v Hs) as (o & Hv & Hopen).
  destruct (sound_open _ _ _ Hw Hv Hopen) as [def Ho].
  exists v, o, def. do 3 (split; [done|]).
  apply hide_silent; [done|done|by rewrite Ho|].
  intros cb w0 Hcb. by eapply Hcall.
Qed.


End SilentCallbacks.

(** A callback with an empty body returns at once. *)
Lemma user_code_silent (body : UserCode) (fuel : nat)
    (cb : Callback) (this : ref) (w : World) :
  body cb this w = [] → user_code body fuel cb this w = Some (tt, w, []).
Proof. intros Hb. destruct fuel; cbn; by rewrite Hb. Qed.

(** ** The order of [show], whatever the callbacks call *)


(** ** Runs *)

Lemma reachable_page : reachable page.
Proof. exists no_calls, 0, page_ops. eexists. reflexivity. Qed.

Lemma reachable_wizard_page : reachable wizard_page.
Proof. exists calling, 1, wizard_ops. eexists. reflexivity. Qed.

Example page_effects :
  snd <$> run_all (user_code no_calls 0) page_ops initial =
    Some [Fire 0 "show:linkProperties"; NewDialogView 0; BodyAdd 0 0;
          FocusTrackerAdd 0 0; KeystrokesListenTo 0 0; CallOnShow 1 0].
Proof. reflexivity. Qed.

Example replacing_effects :
  snd <$> show (user_code no_calls 0) 1 find_dialog page =
    Some [Fire 0 "hide:linkProperties"; ContentViewReset 0; BodyRemove 0 0;
          FocusTrackerRemove 0 0; KeystrokesStopListening 0 0; ViewDestroy 0;
          EditingViewFocus 0; CallOnHide 2 0;
          Fire 1 "show:findAndReplace"; NewDialogView 1; BodyAdd 1 1;
          FocusTrackerAdd 1 1; KeystrokesListenTo 1 1].
Proof. reflexivity. Qed.

Example modal_is_centred_on_screen :
  position (shown_view find_dialog) = Some SCREEN_CENTER ∧
  position (shown_view link_dialog) = Some EDITOR_CENTER.
Proof. split; reflexivity. Qed.

Example show_on_missing_instance :
  show (user_code no_calls 0) 5 find_dialog page = None.
Proof. reflexivity. Qed.

(** A callback that calls the plugin needs the depth to do so. *)
Example callback_out_of_depth :
  run_all (user_code calling 0) chained_ops initial = None.
Proof. reflexivity. Qed.

(** What the run of [chained_ops] fires: two [show] events with no [hide]
    between them. *)
Example chained_events :
  (fired ∘ snd) <$> run_all (user_code calling 1) chained_ops initial =
    Some [(0, "show:a"); (0, "hide:a"); (2, "show:c"); (1, "show:b")].
Proof. reflexivity. Qed.

(** ** The lifecycle of [show] and [hide] *)

(** C1.  That at most one dialog is visible at any time, across all the
    instances, does not hold of the code, although the documentation of
    [_visibleDialogPlugin] says so.  After
    [d0.show( { id: 'a', onHide: () => d2.show( { id: 'c' } ) } )] and
    [d1.show( { id: 'b' } )] on three new instances, [d1] and [d2] both
    have [isOpen] true and a view that is not destroyed: [show] hides the
    dialog of [d0], whose [onHide] shows one on [d2], and then fires
    [show:b] without looking at the slot again. *)
Theorem two_dialogs_visible :
  ∃ w t,
    run_all (user_code calling 1) chained_ops initial = Some (tt, w, t) ∧
    heap w !! 1 = Some (opened 1 (bare_dialog "b")) ∧
    heap w !! 2 = Some (opened 2 (bare_dialog "c")) ∧
    isOpen (opened 1 (bare_dialog "b")) = Some true ∧
    isOpen (opened 2 (bare_dialog "c")) = Some true ∧
    (destroyed <$> view (opened 1 (bare_dialog "b"))) = Some false ∧
    (destroyed <$> view (opened 2 (bare_dialog "c"))) = Some false ∧
    (BodyRemove 2 2 ∉ t) ∧ (BodyRemove 1 1 ∉ t).
Proof.
  eexists _, _. split; [vm_compute; reflexivity|].
  do 6 (split; [reflexivity|]).
  split; intros Hin; repeat (apply elem_of_cons in Hin as [Hin|Hin];
    [discriminate Hin|]); by apply elem_of_nil in Hin.
Qed.







(** C4.  That an instance has [isOpen] true exactly when it is the one in
    the static slot does not hold of the code: after the calls of C1
    ([d0.show( { id: 'a', onHide: () => d2.show( { id: 'c' } ) } )], then
    [d1.show( { id: 'b' } )]) instance [d2] has [isOpen] true while the
    slot holds [d1], so that no [hide()] closes the dialog of [d2]. *)
Theorem open_instance_not_recorded :
  ∃ w t o w' t',
    run_all (user_code calling 1) chained_ops initial = Some (tt, w, t) ∧
    heap w !! 2 = Some o ∧ isOpen o = Some true ∧
    _visibleDialogPlugin w = SlotPlugin 1 ∧
    _visibleDialogPlugin w ≠ SlotPlugin 2 ∧
    run_all (user_code calling 1) [OpHide 2; OpHide 2] w =
      Some (tt, w', t') ∧
    _visibleDialogPlugin w' = SlotNull ∧
    heap w' !! 2 = Some o.
Proof.
  eexists _, _, _, _, _. split; [vm_compute; reflexivity|].
  split; [reflexivity|]. split; [reflexivity|]. split; [reflexivity|].
  split; [discriminate|]. split; [vm_compute; reflexivity|]. done.
Qed.

(** C5.  [hide()], on any instance: with the static slot null or undefined
    it returns at once, whatever the world, and changes and fires nothing.
    With an instance recorded that has no view, [_hide] returns at once:
    the [hide] event is fired, the [onHide] callback registered on that
    instance, if any, is called and cleared, and nothing else changes; a
    second [hide()] then fires the event once more and changes nothing.  In
    a reachable world the recorded instance always has a view, so that
    there nothing visible means the slot is empty.  And in a reachable
    world a second [hide()], on any instance, changes and fires nothing
    after a first one, when the [onHide] registered on the visible instance
    calls neither [show] nor [hide]. *)
Theorem hide_noop_and_idempotent (body : UserCode)
    (fuel : nat) (w : World) (d d' : ref) :
  (slot_empty w → hide (user_code body fuel) d w = Some (tt, w, [])) ∧
  (∀ v o,
     _visibleDialogPlugin w = SlotPlugin v → heap w !! v = Some o →
     view o = None →
     (∀ cb w0, _onHide o = Some cb → body cb v w0 = []) →
     hide (user_code body fuel) d w =
       Some (tt, {| heap := <[v := set_onHide None o]> (heap w);
                    _visibleDialogPlugin := SlotPlugin v |},
             Fire v ("hide:" +:+ id_text (id o)) ::
             match _onHide o with
             | Some cb => [CallOnHide cb v]
             | None => []
             end) ∧
     hide (user_code body fuel) d'
       {| heap := <[v := set_onHide None o]> (heap w);
          _visibleDialogPlugin := SlotPlugin v |} =
       Some (tt, {| heap := <[v := set_onHide None o]> (heap w);
                    _visibleDialogPlugin := SlotPlugin v |},
             [Fire v ("hide:" +:+ id_text (id o))])) ∧
  (reachable w → nothing_visible w →
   hide (user_code body fuel) d w = Some (tt, w, [])) ∧
  (reachable w →
   (∀ v o cb w0, _visibleDialogPlugin w = SlotPlugin v → heap w !! v = Some o →
      _onHide o = Some cb → body cb v w0 = []) →
   ∃ w1 t1,
     hide (user_code body fuel) d w = Some (tt, w1, t1) ∧
     hide (user_code body fuel) d' w1 = Some (tt, w1, [])).
Proof.
  split; [apply hide_run_empty|]. split; [|split].
  - intros v o Hs Hv Hview Hcb. split.
    + apply hide_silent_no_view; [done..|].
      intros cb w0 Hcb'. apply user_code_silent. by apply Hcb.
    + rewrite (hide_silent_no_view _ _ d' v (set_onHide None o));
        [|done| |done|done].
      * cbn. by rewrite list_insert_insert_eq.
      * cbn. apply list_lookup_insert_eq. by eapply lookup_lt_Some.
  - intros Hr Hn. apply hide_run_empty.
    apply sound_nothing_visible; [|done]. by destruct (reachable_sound _ Hr).
  - intros Hr Hcb. destruct (reachable_sound _ Hr) as [Hw _].
    destruct (hide_silent_cases (user_code body fuel) w d Hw)
      as [[He Hh]|(v & o & def & _ & _ & _ & Hh)].
    { intros v o cb w0 Hs Hv Hcb'. apply user_code_silent. by eapply Hcb. }
    + exists w, []. split; [done|]. by apply hide_run_empty.
    + eexists _, _. split; [exact Hh|]. by apply hide_run_empty.
Qed.

Lemma hide_noop_and_idempotent_witness :
  hide (user_code calling 1) 0 initial = Some (tt, initial, []) ∧
  hide (user_code calling 1) 0 never_shown_with_callback =
    Some (tt, never_shown, [Fire 0 "hide:null"; CallOnHide 7 0]) ∧
  (∃ w t, run_all (user_code calling 1) (page_ops ++ [OpHide 1]) initial =
            Some (tt, w, t) ∧
          hide (user_code calling 1) 0 w = Some (tt, w, [])) ∧
  (∃ w1 t1, hide (user_code calling 1) 1 page = Some (tt, w1, t1) ∧
            hide (user_code calling 1) 0 w1 = Some (tt, w1, [])).
Proof.
  split; [exact (proj1 (hide_noop_and_idempotent calling 1 initial 0 0) I)|].
  split.
  { refine (proj1 (proj1 (proj2 (hide_noop_and_idempotent calling 1
                                   never_shown_with_callback 0 0))
                     0 _ eq_refl eq_refl eq_refl _)).
    intros cb w0 Hcb. injection Hcb as <-. reflexivity. }
  split.
  - eexists _, _. split; [vm_compute; reflexivity|].
    refine (proj1 (proj2 (proj2 (hide_noop_and_idempotent calling 1 _ 0 0)))
              _ _).
    + exists no_calls, 0, (page_ops ++ [OpHide 1]). eexists.
      vm_compute. reflexivity.
    + exact I.
  - refine (proj2 (proj2 (proj2 (hide_noop_and_idempotent calling 1 page 1 0)))
              reachable_page _).
    intros v o cb w0 Hs Hv Hcb. vm_compute in Hs. injection Hs as <-.
    vm_compute in Hv. injection Hv as <-. vm_compute in Hcb.
    injection Hcb as <-. reflexivity.
Defined.

(** C5, as it was stated, fails twice.  When the recorded instance has no
    view but has an [onHide] registered, [hide()] changes it: the callback
    is called and cleared.  And [hide()] is not idempotent from every
    state: when the [onHide] of the visible dialog shows the next dialog,
    the first [hide()] leaves that dialog visible and the second one hides
    it. *)
Lemma hide_changes_and_is_not_idempotent :
  (∃ w1 t1,
     nothing_visible never_shown_with_callback ∧
     hide (user_code no_calls 0) 0 never_shown_with_callback =
       Some (tt, w1, t1) ∧
     heap w1 ≠ heap never_shown_with_callback ∧
     CallOnHide 7 0 ∈ t1) ∧
  (∃ w1 t1 w2 t2,
     reachable wizard_page ∧
     hide (user_code calling 1) 0 wizard_page = Some (tt, w1, t1) ∧
     hide (user_code calling 1) 0 w1 = Some (tt, w2, t2) ∧
     heap w1 !! 0 = Some (opened 0 (bare_dialog "next")) ∧
     heap w2 !! 0 = Some (closed 0 (bare_dialog "next")) ∧
     w1 ≠ w2 ∧ t2 ≠ []).
Proof.
  split.
  - eexists _, _. split; [by eexists|]. split; [vm_compute; reflexivity|].
    split; [discriminate|]. apply elem_of_cons. right.
    apply elem_of_cons. by left.
  - eexists _, _, _, _. split; [exact reachable_wizard_page|].
    split; [vm_compute; reflexivity|]. split; [vm_compute; reflexivity|].
    split; [reflexivity|]. split; [reflexivity|]. split; discriminate.
Qed.

(** * Further properties of the dialog controller *)

(** Worlds reached with callbacks that call nothing are consistent. *)
Lemma quiet_consistent (body : UserCode) (w : World) :
  quiet body → reachable_by body w → consistent w.
Proof.
  intros Hq [fuel Hr].
  exact (reachable_consistent (user_code body fuel)
           (user_code_quiet body fuel Hq) w Hr).
Qed.

Lemma reachable_by_reachable (body : UserCode) (w : World) :
  reachable_by body w → reachable w.
Proof. intros Hr. by exists body. Qed.

Lemma reachable_by_page : reachable_by no_calls page.
Proof. exists 0, page_ops. eexists. reflexivity. Qed.

Lemma reachable_by_initial_page : reachable_by no_calls initial_page.
Proof. exists 0, [OpNew 0; OpNew 1]. eexists. reflexivity. Qed.

Lemma quiet_no_calls : quiet no_calls.
Proof. intros cb this. reflexivity. Qed.

(** ** The three states *)

(** X1.  After any run, whatever the callbacks call, an instance is in one
    of three states, told apart by [isOpen]: never shown ([isOpen]
    undefined, no view, [id] null, no callback); showing the dialog of some
    definition ([isOpen] true, [id] and the view as that definition says,
    its [onHide] registered); or closed ([isOpen] false, [id] null, no
    callback, and the view of the last dialog still in [this.view],
    destroyed). *)
Theorem instance_states (body : UserCode) (fuel : nat)
    (ops : list Op) (w : World) (t : list Effect) (d : ref) (o : DialogObj) :
  run_all (user_code body fuel) ops initial = Some (tt, w, t) →
  heap w !! d = Some o →
  match isOpen o with
  | None => o = new_Dialog (editor o)
  | Some true => ∃ def, o = opened (editor o) def
  | Some false => ∃ def, o = closed (editor o) def
  end.
Proof.
  intros Hrun Hd.
  assert (reachable w) as Hr by (by exists body, fuel, ops, t).
  destruct (reachable_sound _ Hr) as [_ Hcan].
  destruct (Hcan d o Hd) as [Ho|[[def Ho]|[def Ho]]]; rewrite Ho; cbn; eauto.
Qed.

Lemma instance_states_witness :
  (∃ w t,
     run_all (user_code no_calls 0) busy_page_ops initial = Some (tt, w, t) ∧
     heap w !! 0 = Some (closed 0 link_dialog) ∧
     heap w !! 1 = Some (opened 1 link_dialog) ∧
     (∃ def, closed 0 link_dialog = closed 0 def) ∧
     (∃ def, opened 1 link_dialog = opened 1 def)) ∧
  (∃ w t,
     run_all (user_code calling 1) chained_ops initial = Some (tt, w, t) ∧
     heap w !! 0 = Some (closed 0 chained_dialog) ∧
     heap w !! 2 = Some (opened 2 (bare_dialog "c")) ∧
     (∃ def, closed 0 chained_dialog = closed 0 def) ∧
     (∃ def, opened 2 (bare_dialog "c") = opened 2 def)).
Proof.
  split.
  - eexists _, _. split; [vm_compute; reflexivity|].
    split; [reflexivity|]. split; [reflexivity|]. split.
    + refine (instance_states no_calls 0 busy_page_ops _ _ 0
                (closed 0 link_dialog) _ _);
        [vm_compute; reflexivity|reflexivity].
    + refine (instance_states no_calls 0 busy_page_ops _ _ 1
                (opened 1 link_dialog) _ _);
        [vm_compute; reflexivity|reflexivity].
  - eexists _, _. split; [vm_compute; reflexivity|].
    split; [reflexivity|]. split; [reflexivity|]. split.
    + refine (instance_states calling 1 chained_ops _ _ 0
                (closed 0 chained_dialog) _ _);
        [vm_compute; reflexivity|reflexivity].
    + refine (instance_states calling 1 chained_ops _ _ 2
                (opened 2 (bare_dialog "c")) _ _);
        [vm_compute; reflexivity|reflexivity].
Defined.

(** ** What [show] leaves *)

(** X2.  When no callback calls [show] or [hide], [show( def )] on an
    existing instance completes and leaves that instance exactly as the
    definition says, whatever it showed before: nothing of an earlier
    dialog (its id, its view, its [onHide] callback) is kept. *)
Theorem show_forgets_earlier_dialog (body : UserCode)
    (fuel : nat) (w : World) (d : ref) (o : DialogObj)
    (def : DialogDefinition) :
  quiet body → reachable_by body w → heap w !! d = Some o →
  ∃ w' t,
    show (user_code body fuel) d def w = Some (tt, w', t) ∧
    heap w' !! d = Some (opened (editor o) def).
Proof.
  intros Hq Hr Hd.
  apply (show_result (user_code body fuel) (user_code_quiet body fuel Hq));
    [by eapply quiet_consistent| |done].
  by destruct (reachable_sound _ (reachable_by_reachable _ _ Hr)).
Qed.

Lemma show_forgets_earlier_dialog_witness :
  ∃ w' t,
    show (user_code no_calls 0) 0 (bare_dialog "about") page =
      Some (tt, w', t) ∧
    heap w' !! 0 = Some (opened 0 (bare_dialog "about")) ∧
    _onHide (opened 0 (bare_dialog "about")) = None.
Proof.
  destruct (show_forgets_earlier_dialog no_calls 0 page 0 _
              (bare_dialog "about") quiet_no_calls reachable_by_page eq_refl)
    as (w' & t & Hshow & Hd).
  exists w', t. split; [exact Hshow|]. split; [exact Hd|reflexivity].
Defined.

(** X3.  The view that [_show] makes for a definition and stores in
    [this.view] is visible and not destroyed; its position is the one the
    definition gives, and otherwise the centre of the screen for a modal
    and the centre of the editor for any other dialog; and the
    [hasCloseButton] that [_show] hands to [setupParts] is true unless the
    definition says [hasCloseButton: false].  (What the view makes of that
    flag is its own affair: by the documentation of the definition, a
    button only when there is a title.) *)
Theorem show_defaults (w : World) (d : ref) (o : DialogObj)
    (def : DialogDefinition) :
  heap w !! d = Some o →
  ∃ w' t o' v p,
    _show d def w = Some (tt, w', t) ∧
    heap w' !! d = Some o' ∧ view o' = Some v ∧ parts v = Some p ∧
    isVisible v = true ∧ destroyed v = false ∧
    (∀ pos, def_position def = Some pos → position v = Some pos) ∧
    (def_position def = None → def_isModal def = Some true →
     position v = Some SCREEN_CENTER) ∧
    (def_position def = None → def_isModal def ≠ Some true →
     position v = Some EDITOR_CENTER) ∧
    (hasCloseButton p = false ↔ def_hasCloseButton def = Some false).
Proof.
  intros Hd. eexists _, _, (shown def o), _, _.
  split; [by apply _show_run|]. split.
  { cbn. apply list_lookup_insert_eq. by eapply lookup_lt_Some. }
  cbn. do 4 (split; [reflexivity|]). split; [|split; [|split]].
  - intros pos Hp. cbn. by rewrite Hp.
  - intros Hp Hm. cbn. by rewrite Hp, Hm.
  - intros Hp Hm. cbn. rewrite Hp. by destruct (def_isModal def) as [[]|].
  - cbn. by destruct (def_hasCloseButton def) as [[]|].
Qed.

Lemma show_defaults_witness :
  ∃ w' t o' v p,
    _show 1 find_dialog page = Some (tt, w', t) ∧
    heap w' !! 1 = Some o' ∧ view o' = Some v ∧ parts v = Some p ∧
    isVisible v = true ∧ destroyed v = false ∧
    position v = Some SCREEN_CENTER ∧ hasCloseButton p = true.
Proof.
  destruct (show_defaults page 1 _ find_dialog eq_refl)
    as (w' & t & o' & v & p & Hshow & Hd & Hv & Hp & Hvis & Hlive & _ &
        Hmodal & _ & Hclose).
  exists w', t, o', v, p. do 6 (split; [done|]). split.
  - by apply Hmodal.
  - destruct (hasCloseButton p); [done|]. discriminate (proj1 Hclose eq_refl).
Defined.

(** ** [hide] after [show] *)

(** X4.  When no callback calls [show] or [hide]: the [hide()] that follows
    [show( def )] on instance [d], called on any instance, fires
    [hide:<id>] with the id of [def] on [d], resets the content view
    exactly when [def] gave content, removes the view from the body
    collection, the focus tracker and the keystroke handler of the editor
    of [d], destroys it, gives the focus back to that editor's editing
    view, and then calls the [onHide] of [def] once, if [def] has one.  It
    leaves [d] closed, and one more [hide()] does nothing at all: the
    callback is never called twice. *)
Theorem hide_after_show (body : UserCode) (fuel : nat)
    (w w1 : World) (d d' d'' : ref) (o : DialogObj)
    (def : DialogDefinition) (t1 : list Effect) :
  quiet body → reachable_by body w → heap w !! d = Some o →
  show (user_code body fuel) d def w = Some (tt, w1, t1) →
  ∃ w2,
    hide (user_code body fuel) d' w1 =
      Some (tt, w2,
            Fire d ("hide:" +:+ def_id def) ::
            (if bool_decide (is_Some (def_content def))
             then [ContentViewReset d] else []) ++
            [BodyRemove (editor o) d; FocusTrackerRemove (editor o) d;
             KeystrokesStopListening (editor o) d; ViewDestroy d;
             EditingViewFocus (editor o)] ++
            match def_onHide def with
            | Some cb => [CallOnHide cb d]
            | None => []
            end) ∧
    heap w2 !! d = Some (closed (editor o) def) ∧
    _visibleDialogPlugin w2 = SlotNull ∧
    hide (user_code body fuel) d'' w2 = Some (tt, w2, []).
Proof.
  intros Hq Hr Hd Hshow.
  pose proof (user_code_quiet body fuel Hq) as Hcall.
  pose proof (quiet_consistent _ _ Hq Hr) as Hc.
  destruct (reachable_sound _ (reachable_by_reachable _ _ Hr)) as [_ Hcan].
  destruct (show_result _ Hcall w d o def Hc Hcan Hd)
    as (w1' & t1' & Hshow' & Hd1).
  rewrite Hshow in Hshow'. injection Hshow' as <- <-.
  assert (_visibleDialogPlugin w1 = SlotPlugin d) as Hs1.
  { destruct (show_run _ Hcall w d o def Hc Hd)
      as (? & ? & ? & _ & _ & _ & _ & _ & _ & Hshow'').
    rewrite Hshow in Hshow''. by injection Hshow'' as -> _. }
  eexists. split; [|split; [|split]].
  - rewrite (hide_run _ Hcall w1 d' d _ (shown_view def) Hs1 Hd1 eq_refl).
    unfold hide_effects, _hide_effects. rewrite <- app_assoc. reflexivity.
  - cbn. apply list_lookup_insert_eq. by eapply lookup_lt_Some.
  - reflexivity.
  - by apply hide_run_empty.
Qed.

Lemma hide_after_show_witness :
  ∃ w1 t1 w2,
    show (user_code no_calls 0) 0 link_dialog initial_page =
      Some (tt, w1, t1) ∧
    hide (user_code no_calls 0) 1 w1 =
      Some (tt, w2,
            [Fire 0 "hide:linkProperties"; ContentViewReset 0; BodyRemove 0 0;
             FocusTrackerRemove 0 0; KeystrokesStopListening 0 0;
             ViewDestroy 0; EditingViewFocus 0; CallOnHide 2 0]) ∧
    heap w2 !! 0 = Some (closed 0 link_dialog) ∧
    _visibleDialogPlugin w2 = SlotNull ∧
    hide (user_code no_calls 0) 0 w2 = Some (tt, w2, []).
Proof.
  assert (∃ w1 t1, show (user_code no_calls 0) 0 link_dialog initial_page =
                     Some (tt, w1, t1)) as (w1 & t1 & Hshow)
    by (eexists _, _; reflexivity).
  destruct (hide_after_show no_calls 0 initial_page w1 0 1 0 _ link_dialog t1
              quiet_no_calls reachable_by_initial_page eq_refl Hshow)
    as (w2 & H).
  exists w1, t1, w2. split; [exact Hshow|exact H].
Defined.

(** ** What [show] and [hide] leave alone *)

(** X5.  When no callback calls [show] or [hide], [show] and [hide] neither
    make nor drop an instance, never change the editor of one, and leave
    every instance as it was except the one that was visible and, for
    [show], the receiver. *)
Theorem show_hide_frame (body : UserCode) (fuel : nat)
    (w w' : World) (d : ref) (t : list Effect) :
  quiet body → reachable_by body w →
  ((∃ def, show (user_code body fuel) d def w = Some (tt, w', t)) ∨
   hide (user_code body fuel) d w = Some (tt, w', t)) →
  length (heap w') = length (heap w) ∧
  (∀ i oi, heap w !! i = Some oi →
     ∃ oi', heap w' !! i = Some oi' ∧ editor oi' = editor oi) ∧
  (∀ i, _visibleDialogPlugin w ≠ SlotPlugin i →
     i = d ∨ heap w' !! i = heap w !! i) ∧
  (hide (user_code body fuel) d w = Some (tt, w', t) →
   ∀ i, _visibleDialogPlugin w ≠ SlotPlugin i → heap w' !! i = heap w !! i).
Proof.
  intros Hq Hr Hrun. pose proof (quiet_consistent _ _ Hq Hr) as Hc.
  pose proof (user_code_quiet body fuel Hq) as Hcall.
  destruct Hrun as [[def Hshow]|Hhide].
  - destruct (show_needs_receiver _ Hcall _ _ _ _ Hc Hshow) as [o Hd].
    destruct (show_run _ Hcall w d o def Hc Hd)
      as (w1 & t1 & o1 & Hh & _ & _ & Hd1 & He & _ & Hshow').
    rewrite Hshow in Hshow'. injection Hshow' as -> _.
    destruct (hide_frame _ Hcall _ _ _ _ Hc Hh) as (Hlen & Hed & Hsame).
    split; [cbn; by rewrite length_insert|]. split; [|split].
    + intros i oi Hi. cbn. destruct (decide (d = i)) as [->|Hne].
      * simplify_eq. exists (shown def o1). split; [|done].
        apply list_lookup_insert_eq. by eapply lookup_lt_Some.
      * rewrite list_lookup_insert_ne by done. by apply Hed.
    + intros i Hi. cbn. destruct (decide (d = i)) as [->|Hne]; [by left|].
      right. rewrite list_lookup_insert_ne by done. by apply Hsame.
    + intros Hhide. rewrite Hh in Hhide. injection Hhide as Hw _.
      intros i Hi. rewrite <- Hw. by apply Hsame.
  - destruct (hide_frame _ Hcall _ _ _ _ Hc Hhide) as (Hlen & Hed & Hsame).
    split; [done|]. split; [done|]. split; [|done].
    intros i Hi. right. by apply Hsame.
Qed.

Lemma show_hide_frame_witness :
  ∃ w' t,
    show (user_code no_calls 0) 1 find_dialog page = Some (tt, w', t) ∧
    length (heap w') = length (heap page) ∧
    (∀ i oi, heap page !! i = Some oi →
       ∃ oi', heap w' !! i = Some oi' ∧ editor oi' = editor oi) ∧
    (∀ i, _visibleDialogPlugin page ≠ SlotPlugin i →
       i = 1 ∨ heap w' !! i = heap page !! i).
Proof.
  assert (∃ w' t, show (user_code no_calls 0) 1 find_dialog page =
                    Some (tt, w', t)) as (w' & t & Hshow)
    by (eexists _, _; reflexivity).
  exists w', t. split; [exact Hshow|].
  destruct (show_hide_frame no_calls 0 page w' 1 t quiet_no_calls
              reachable_by_page (or_introl (ex_intro _ _ Hshow)))
    as (Hlen & Hed & Hsame & _).
  done.
Defined.

(** ** Registrations *)

(** X6.  When no callback calls [show] or [hide], every registration of a
    dialog view is undone when the dialog is hidden: after any run, the
    body collections, the focus trackers and the keystroke handlers of all
    the editors together hold the view of the visible dialog, in the editor
    of its instance, and nothing else; so at most one dialog view is
    attached on the whole page. *)
Theorem registrations_balanced (body : UserCode)
    (fuel : nat) (ops : list Op) (w : World) (t : list Effect)
    (r : Registry) :
  quiet body →
  run_all (user_code body fuel) ops initial = Some (tt, w, t) →
  registry_after r t = visible_view w ∧ (length (registry_after r t) ≤ 1)%nat.
Proof.
  intros Hq Hrun.
  pose proof (run_all_registers _ (user_code_quiet body fuel Hq) ops initial
                w t r consistent_initial Hrun) as Hreg.
  split; [exact Hreg|]. unfold registry_after.
  change (@nil (nat * nat)) with (visible_view initial). rewrite Hreg.
  unfold visible_view.
  destruct (_visibleDialogPlugin w) as [| |d]; cbn; [lia..|].
  destruct (heap w !! d); cbn; lia.
Qed.

Lemma registrations_balanced_witness :
  ∃ w t,
    run_all (user_code no_calls 0) busy_page_ops initial = Some (tt, w, t) ∧
    visible_view w = [(1, 1)] ∧
    registry_after BodyCollection t = visible_view w ∧
    (length (registry_after BodyCollection t) ≤ 1)%nat.
Proof.
  eexists _, _. split; [vm_compute; reflexivity|]. split; [reflexivity|].
  refine (registrations_balanced no_calls 0 busy_page_ops _ _ BodyCollection
            quiet_no_calls _).
  vm_compute. reflexivity.
Defined.

(** With a callback that shows a dialog on a third instance, two views stay
    in their body collections. *)
Example two_views_attached :
  registry_after BodyCollection <$>
    (snd <$> run_all (user_code calling 1) chained_ops initial) =
    Some [(2, 2); (1, 1)].
Proof. reflexivity. Qed.

(** ** Ctrl+F6 *)

(** X7.  In a reachable world, whatever the callbacks call, the Ctrl+F6
    listener of an existing instance never reads a missing view.  It does
    nothing, and leaves the keystroke to others, unless the instance shows
    a dialog that is not a modal; then it moves the focus to the editing
    view when the dialog has the focus, to the dialog when it has not, and
    cancels the keystroke.  When no callback calls [show] or [hide], at
    most one instance on the page cancels it. *)
Theorem ctrlF6_toggles_focus (w : World) (d : ref) (o : DialogObj)
    (isFocused : bool) :
  reachable w → heap w !! d = Some o →
  ∃ fx,
    ctrlF6_listener d isFocused w = Some fx ∧
    (isOpen o ≠ Some true → fx = []) ∧
    (∀ def, o = opened (editor o) def →
       fx = if truthy (def_isModal def) then []
            else [if isFocused then EditingViewFocused (editor o)
                  else DialogViewFocused d; Cancelled]) ∧
    (∀ body, quiet body → reachable_by body w →
     ∀ d' o' f' fx',
       heap w !! d' = Some o' → ctrlF6_listener d' f' w = Some fx' →
       Cancelled ∈ fx → Cancelled ∈ fx' → d = d').
Proof.
  intros Hr Hd. destruct (reachable_sound _ Hr) as [_ Hcan].
  assert (Hopen : ∀ i oi fi fxi,
            heap w !! i = Some oi → ctrlF6_listener i fi w = Some fxi →
            Cancelled ∈ fxi → isOpen oi = Some true).
  { intros i oi fi fxi Hi Hrun Hin. unfold ctrlF6_listener in Hrun.
    rewrite Hi in Hrun. destruct (isOpen oi) as [[]|]; [done|..];
      cbn in Hrun; simplify_eq; by apply elem_of_nil in Hin. }
  destruct (Hcan d o Hd) as [Ho|[[def Ho]|[def Ho]]].
  - exists []. unfold ctrlF6_listener. rewrite Hd, Ho. cbn.
    split; [done|]. split; [done|]. split; [done|].
    intros ? ? ? ? ? ? ? _ _ Hin. by apply elem_of_nil in Hin.
  - exists (if truthy (def_isModal def) then []
            else [if isFocused then EditingViewFocused (editor o)
                  else DialogViewFocused d; Cancelled]).
    split.
    { unfold ctrlF6_listener. rewrite Hd, Ho. cbn.
      by destruct (truthy (def_isModal def)). }
    split; [intros Hclosed; by rewrite Ho in Hclosed|]. split.
    + intros def' Hdef'. rewrite Ho in Hdef'. cbn in Hdef'.
      assert (def_isModal def = def_isModal def') as <-; [|done].
      by injection Hdef'.
    + intros body Hq Hrb d' o' f' fx' Hd' Hrun' _ Hin'.
      pose proof (quiet_consistent _ _ Hq Hrb) as Hc.
      pose proof (Hopen _ _ _ _ Hd' Hrun' Hin') as Hopen'.
      pose proof (open_is_recorded _ Hc d' o' Hd' Hopen') as Hs'.
      assert (isOpen o = Some true) as Hopened by (by rewrite Ho).
      pose proof (open_is_recorded _ Hc d o Hd Hopened) as Hs.
      congruence.
  - exists []. unfold ctrlF6_listener. rewrite Hd, Ho. cbn.
    split; [done|]. split; [done|]. split; [done|].
    intros ? ? ? ? ? ? ? _ _ Hin. by apply elem_of_nil in Hin.
Qed.

Lemma ctrlF6_toggles_focus_witness :
  ctrlF6_listener 0 true page = Some [EditingViewFocused 0; Cancelled] ∧
  ctrlF6_listener 0 false page = Some [DialogViewFocused 0; Cancelled] ∧
  ctrlF6_listener 1 true page = Some [].
Proof.
  split; [|split].
  - destruct (ctrlF6_toggles_focus page 0 _ true reachable_page eq_refl)
      as (fx & -> & _ & Hfx & _).
    by rewrite (Hfx link_dialog eq_refl).
  - destruct (ctrlF6_toggles_focus page 0 _ false reachable_page eq_refl)
      as (fx & -> & _ & Hfx & _).
    by rewrite (Hfx link_dialog eq_refl).
  - destruct (ctrlF6_toggles_focus page 1 _ true reachable_page eq_refl)
      as (fx & -> & Hfx & _).
    rewrite Hfx; [reflexivity|discriminate].
Defined.

(** ** Roots attached and detached *)

Lemma updatePositions_count (d : ref) (roots : list ChangedRoot) :
  updatePositions d roots =
    replicate (length (filter (λ c, is_Some (state c)) roots))
      (PositionUpdated d).
Proof.
  induction roots as [|c roots IH]; [done|]. rewrite filter_cons.
  cbn [updatePositions]. destruct (state c) as [s|] eqn:Hs.
  - rewrite decide_True by (by eexists). cbn. by rewrite IH.
  - rewrite decide_False by (by intros [? ?]). done.
Qed.

(** X8.  On [change:data] an instance that has never shown a dialog does
    nothing.  One that has, open or closed, updates the position of its
    view once for each changed root that was attached or detached, and not
    at all for roots that only changed their attributes; after [hide] the
    view is the destroyed one, which stays in [this.view].  This holds in
    every reachable world, whatever the callbacks call. *)
Theorem changeData_updates_position (w : World) (d : ref) (o : DialogObj)
    (roots : list ChangedRoot) :
  reachable w → heap w !! d = Some o →
  ∃ fx,
    changeData_listener d roots w = Some fx ∧
    (isOpen o = None → fx = []) ∧
    (isOpen o ≠ None →
     fx = replicate (length (filter (λ c, is_Some (state c)) roots))
            (PositionUpdated d)) ∧
    (isOpen o = Some false → ∃ v, view o = Some v ∧ destroyed v = true).
Proof.
  intros Hr Hd. unfold changeData_listener. rewrite Hd.
  destruct (reachable_sound _ Hr) as [_ Hcan].
  destruct (Hcan d o Hd) as [Ho|[[def Ho]|[def Ho]]];
    rewrite Ho; cbn.
  - exists []. done.
  - eexists. split; [reflexivity|]. split; [done|].
    split; [intros _; apply updatePositions_count|done].
  - eexists. split; [reflexivity|]. split; [done|].
    split; [intros _; apply updatePositions_count|]. intros _. by eexists.
Qed.

Lemma changeData_updates_position_witness :
  ∃ w t,
    hide (user_code no_calls 0) 1 page = Some (tt, w, t) ∧
    (∃ o, heap w !! 0 = Some o ∧ isOpen o = Some false) ∧
    changeData_listener 0
      [{| rootName := "main"; state := Some detached |};
       {| rootName := "side"; state := None |};
       {| rootName := "foot"; state := Some attached |}] w =
      Some [PositionUpdated 0; PositionUpdated 0] ∧
    changeData_listener 1
      [{| rootName := "main"; state := Some detached |}] w = Some [].
Proof.
  assert (∃ w t, hide (user_code no_calls 0) 1 page = Some (tt, w, t))
    as (w & t & Hh) by (eexists _, _; reflexivity).
  assert (reachable w) as Hr'.
  { exists no_calls, 0, (page_ops ++ [OpHide 1]). eexists.
    injection Hh as <- _. vm_compute. reflexivity. }
  exists w, t. split; [exact Hh|].
  injection Hh as <- _.
  split; [eexists; split; reflexivity|]. split.
  - destruct (changeData_updates_position _ 0 _
      [{| rootName := "main"; state := Some detached |};
       {| rootName := "side"; state := None |};
       {| rootName := "foot"; state := Some attached |}] Hr' eq_refl)
      as (fx & Hrun & _ & Hfx & _).
    rewrite Hrun, Hfx; [reflexivity|discriminate].
  - destruct (changeData_updates_position _ 1 _
      [{| rootName := "main"; state := Some detached |}] Hr' eq_refl)
      as (fx & Hrun & Hfx & _).
    rewrite Hrun, Hfx; reflexivity.
Defined.

(** ** The events fired *)

(** X14.  When no callback calls [show] or [hide], the events of a run come
    in pairs: [show:<id>] is fired only while no dialog is announced, and
    the next event is [hide:<id>], fired on the same instance and with the
    same id, before any other [show].  A listener that follows the events
    of such a run from its start therefore always knows the visible
    instance and the id of its dialog. *)
Theorem fired_events_alternate (body : UserCode)
    (fuel : nat) (ops : list Op) (w : World) (t : list Effect) :
  quiet body →
  run_all (user_code body fuel) ops initial = Some (tt, w, t) →
  follow_all None (fired t) = Some (shown_dialog w).
Proof.
  intros Hq Hrun.
  exact (run_all_follows _ (user_code_quiet body fuel Hq) ops initial w t
           consistent_initial all_canonical_initial Hrun).
Qed.

Lemma fired_events_alternate_witness :
  ∃ w t,
    run_all (user_code no_calls 0) busy_page_ops initial = Some (tt, w, t) ∧
    fired t =
      [(0, "show:linkProperties"); (0, "hide:linkProperties");
       (1, "show:findAndReplace"); (1, "hide:findAndReplace");
       (1, "show:linkProperties")] ∧
    shown_dialog w = Some (1, "linkProperties") ∧
    follow_all None (fired t) = Some (shown_dialog w).
Proof.
  eexists _, _. split; [vm_compute; reflexivity|].
  split; [reflexivity|]. split; [reflexivity|].
  refine (fired_events_alternate no_calls 0 busy_page_ops _ _
            quiet_no_calls _).
  vm_compute. reflexivity.
Defined.

(** With a callback that shows a dialog on a third instance, a second
    [show] is fired while a dialog is announced. *)
Example chained_events_do_not_alternate :
  (follow_all None ∘ fired ∘ snd) <$>
    run_all (user_code calling 1) chained_ops initial = Some None.
Proof. reflexivity. Qed.

(** ** One dialog at a time, when callbacks call nothing *)

(** X15.  When no callback calls [show] or [hide], at most one instance has
    [isOpen] true after any run of constructions, [show], [hide] and
    [close] events, across all the editors. *)
Theorem at_most_one_dialog_visible (body : UserCode)
    (fuel : nat) (ops : list Op) (w : World) (t : list Effect) :
  quiet body →
  run_all (user_code body fuel) ops initial = Some (tt, w, t) →
  ∀ a b oa ob,
    heap w !! a = Some oa → heap w !! b = Some ob →
    isOpen oa = Some true → isOpen ob = Some true → a = b.
Proof.
  intros Hq Hrun.
  assert (consistent w) as Hc.
  { apply (quiet_consistent body); [done|]. by exists fuel, ops, t. }
  intros a b oa ob Ha Hb Hoa Hob.
  pose proof (open_is_recorded _ Hc a oa Ha Hoa) as Hsa.
  pose proof (open_is_recorded _ Hc b ob Hb Hob) as Hsb.
  congruence.
Qed.

Lemma at_most_one_dialog_visible_witness :
  ∃ w t,
    run_all (user_code no_calls 0) busy_page_ops initial = Some (tt, w, t) ∧
    ∀ a b oa ob,
      heap w !! a = Some oa → heap w !! b = Some ob →
      isOpen oa = Some true → isOpen ob = Some true → a = b.
Proof.
  eexists _, _. split; [vm_compute; reflexivity|].
  refine (at_most_one_dialog_visible no_calls 0 busy_page_ops _ _
            quiet_no_calls _).
  vm_compute. reflexivity.
Defined.

(** X16.  After any run, whatever the callbacks call: the instance in the
    static slot exists and has [isOpen] true, and an instance whose
    [isOpen] is not true has [id] null.  When no callback calls [show] or
    [hide], an instance with [isOpen] true is the one in the slot. *)
Theorem open_iff_recorded (body : UserCode) (fuel : nat)
    (ops : list Op) (w : World) (t : list Effect) :
  run_all (user_code body fuel) ops initial = Some (tt, w, t) →
  (∀ v, _visibleDialogPlugin w = SlotPlugin v →
     ∃ o, heap w !! v = Some o ∧ isOpen o = Some true) ∧
  (∀ d o, heap w !! d = Some o → isOpen o ≠ Some true → id o = None) ∧
  (quiet body →
   ∀ d o, heap w !! d = Some o → isOpen o = Some true →
     _visibleDialogPlugin w = SlotPlugin d).
Proof.
  intros Hrun.
  assert (reachable w) as Hr by (by exists body, fuel, ops, t).
  destruct (reachable_sound _ Hr) as [Hw Hcan]. split; [|split].
  - intros v Hs. by apply (sound_recorded _ Hw).
  - intros d o Hd Hclosed.
    destruct (Hcan d o Hd) as [Ho|[[def Ho]|[def Ho]]]; rewrite Ho in *;
      done.
  - intros Hq d o Hd Hopen.
    assert (consistent w) as Hc.
    { apply (quiet_consistent body); [done|]. by exists fuel, ops, t. }
    by eapply open_is_recorded.
Qed.

Lemma open_iff_recorded_witness :
  ∃ w t,
    run_all (user_code calling 1) chained_ops initial = Some (tt, w, t) ∧
    (∀ v, _visibleDialogPlugin w = SlotPlugin v →
       ∃ o, heap w !! v = Some o ∧ isOpen o = Some true) ∧
    (∀ d o, heap w !! d = Some o → isOpen o ≠ Some true → id o = None).
Proof.
  eexists _, _. split; [vm_compute; reflexivity|].
  assert (∃ r, run_all (user_code calling 1) chained_ops initial = Some r)
    as [[[[] w] t] Hrun] by (eexists; vm_compute; reflexivity).
  destruct (open_iff_recorded calling 1 chained_ops w t Hrun)
    as (Hrec & Hid & _).
  vm_compute in Hrun. injection Hrun as <- _. split; [exact Hrec|exact Hid].
Defined.

(** ** The callback registered during [hide] *)



End DialogLifecycle.

(** * Properties of the list-properties form *)

Section StartIndexField.

Import ListPropertiesView.

Example parseInt_digits_then_text : parseInt "12px" = Int 12.
Proof. reflexivity. Qed.

Example parseInt_text : parseInt "abc" = NaN.
Proof. reflexivity. Qed.

Example parseInt_negative : parseInt " -3" = Int (-3).
Proof. reflexivity. Qed.

Example parseInt_hexadecimal : parseInt "0x1f" = Int 31.
Proof. reflexivity. Qed.

Lemma lt_NaN (b : Z) : lt NaN b = false.
Proof. reflexivity. Qed.

(** C6.  An [input] event of the start-index field runs two listeners:
    that of [createLabeledInputNumber], which sets [errorText] to null, and
    then that of [_createStartIndexField].  So on every [input] event an
    error shown before goes away; then on an empty value nothing more
    happens; on a value that is not empty and whose [Number.parseInt] is
    less than 1, [errorText] is set to the message 'Start index must be
    greater than 0.', as the locale's [t] renders it, and nothing is fired;
    on every other value that is not empty, those that parse to NaN
    included, [listStart] is fired with the result of [Number.parseInt],
    and [errorText] stays null. *)
Theorem start_index_input (t : string → string) (f : StartIndexField) :
  (value f = "" →
   fieldView_fire_input t f = ({| value := ""; errorText := None |}, [])) ∧
  (value f ≠ "" → lt (parseInt (value f)) 1 = true →
   fieldView_fire_input t f =
     ({| value := value f;
         errorText := Some (t "Start index must be greater than 0.") |}, [])) ∧
  (value f ≠ "" → lt (parseInt (value f)) 1 = false →
   fieldView_fire_input t f =
     ({| value := value f; errorText := None |},
      [listStart (parseInt (value f))])) ∧
  (value f ≠ "" → parseInt (value f) = NaN →
   fieldView_fire_input t f =
     ({| value := value f; errorText := None |}, [listStart NaN])) ∧
  (errorText f = None → value f = "" → fieldView_fire_input t f = (f, [])).
Proof.
  unfold fieldView_fire_input, startIndexField_onInput, inputView_onInput,
    set_errorText.
  cbn. repeat split.
  - intros ->. reflexivity.
  - intros Hne Hlt. rewrite bool_decide_eq_true_2 by done. by rewrite Hlt.
  - intros Hne Hlt. rewrite bool_decide_eq_true_2 by done. by rewrite Hlt.
  - intros Hne Hnan. rewrite bool_decide_eq_true_2 by done. by rewrite Hnan.
  - intros Herr Hv. rewrite Hv. cbn. destruct f; cbn in *. by subst.
Qed.

Lemma start_index_input_witness :
  fieldView_fire_input t_en
    {| value := ""; errorText := Some "Start index must be greater than 0." |}
    = ({| value := ""; errorText := None |}, []) ∧
  fieldView_fire_input t_en {| value := "0"; errorText := None |} =
    ({| value := "0";
        errorText := Some "Start index must be greater than 0." |}, []) ∧
  fieldView_fire_input t_en
    {| value := "12"; errorText := Some "Start index must be greater than 0." |}
    = ({| value := "12"; errorText := None |}, [listStart (Int 12)]) ∧
  fieldView_fire_input t_en {| value := "abc"; errorText := None |} =
    ({| value := "abc"; errorText := None |}, [listStart NaN]) ∧
  fieldView_fire_input t_en {| value := ""; errorText := None |} =
    ({| value := ""; errorText := None |}, []).
Proof.
  split; [|split; [|split; [|split]]].
  - exact (proj1 (start_index_input t_en
             {| value := "";
                errorText := Some "Start index must be greater than 0." |})
             eq_refl).
  - refine (proj1 (proj2
             (start_index_input t_en {| value := "0"; errorText := None |}))
             _ eq_refl).
    discriminate.
  - refine (proj1 (proj2 (proj2
             (start_index_input t_en
                {| value := "12";
                   errorText :=
                     Some "Start index must be greater than 0." |})))
             _ eq_refl).
    discriminate.
  - refine (proj1 (proj2 (proj2 (proj2
             (start_index_input t_en {| value := "abc"; errorText := None |}))))
             _ eq_refl).
    discriminate.
  - exact (proj2 (proj2 (proj2 (proj2
             (start_index_input t_en {| value := ""; errorText := None |}))))
             eq_refl eq_refl).
Defined.

(** C6, as it was stated, fails: something does happen on an [input] event
    with an empty value.  After '0' was typed the field shows the error;
    when the user then empties the field, the event takes the error
    away. *)
Lemma empty_value_clears_error :
  ∃ shown emptied,
    fieldView_fire_input t_en {| value := "0"; errorText := None |} =
      (shown, []) ∧
    errorText shown = Some "Start index must be greater than 0." ∧
    emptied = {| value := ""; errorText := errorText shown |} ∧
    value emptied = "" ∧
    (fieldView_fire_input t_en emptied).1 ≠ emptied ∧
    errorText (fieldView_fire_input t_en emptied).1 = None.
Proof.
  eexists _, _. split; [reflexivity|]. split; [reflexivity|].
  split; [reflexivity|]. split; [reflexivity|]. split; [discriminate|].
  reflexivity.
Qed.

End StartIndexField.

(** * Further properties of the list-properties form *)

Section ListPropertiesForm.

Import ListPropertiesView.

(** ** An input event of the start-index field *)

Example error_goes_away_on_empty_value :
  fieldView_fire_input t_en
    {| value := ""; errorText := Some "Start index must be greater than 0." |} =
    ({| value := ""; errorText := None |}, []).
Proof. reflexivity. Qed.

(** X9.  After an [input] event the field shows an error exactly when its
    value is not empty and parses to less than 1, whatever error it showed
    before: an earlier error does not survive the event.  (The message is
    taken not to be rendered as the empty string, which [!!value] would
    count as no error.) *)
Theorem input_event_error_indicator (t : string → string)
    (f : StartIndexField) :
  t "Start index must be greater than 0." ≠ "" →
  value (fieldView_fire_input t f).1 = value f ∧
  (hasError (fieldView_fire_input t f).1 = true ↔
   value f ≠ "" ∧ lt (parseInt (value f)) 1 = true) ∧
  (∀ earlier, fieldView_fire_input t (set_errorText earlier f) =
              fieldView_fire_input t f).
Proof.
  intros Ht. unfold fieldView_fire_input, startIndexField_onInput,
    inputView_onInput, hasError. cbn.
  split; [|split].
  - case_bool_decide; [|done]. by destruct (lt (parseInt (value f)) 1).
  - case_bool_decide as Hv.
    + destruct (lt (parseInt (value f)) 1); cbn.
      * split; [done|]. intros _. apply negb_true_iff.
        by apply String.eqb_neq.
      * split; [done|]. by intros [_ ?].
    + cbn. split; [done|]. intros [Hne _]. contradiction.
  - done.
Qed.

Lemma input_event_error_indicator_witness :
  hasError (fieldView_fire_input t_en
              {| value := "0"; errorText := None |}).1 = true ∧
  hasError (fieldView_fire_input t_en
              {| value := "3";
                 errorText := Some "Start index must be greater than 0." |}).1
    = false.
Proof.
  assert (t_en "Start index must be greater than 0." ≠ "") as Ht
    by discriminate.
  split.
  - apply (proj1 (proj2 (input_event_error_indicator t_en
                           {| value := "0"; errorText := None |} Ht))).
    split; [discriminate|reflexivity].
  - destruct (hasError (fieldView_fire_input t_en
                {| value := "3";
                   errorText := Some "Start index must be greater than 0." |}).1)
      eqn:Herr; [|reflexivity].
    apply (proj1 (proj2 (input_event_error_indicator t_en _ Ht))) in Herr
      as [_ Hlt].
    discriminate Hlt.
Defined.

(** X10.  A [listStart] event that an [input] event fires is the only event
    fired, carries the parsed value, comes with no error, and never carries
    an integer below 1: it carries an integer from 1 up, or NaN when the
    value does not start with a number.  This is said of values whose
    leading integer is at most 2^53 in magnitude, which a JavaScript number
    holds exactly. *)
Theorem listStart_never_below_one (t : string → string) (f : StartIndexField)
    (n : Number) :
  (∀ z, parseInt (value f) = Int z → (Z.abs z ≤ 2 ^ 53)%Z) →
  listStart n ∈ (fieldView_fire_input t f).2 →
  (fieldView_fire_input t f).2 = [listStart n] ∧
  n = parseInt (value f) ∧
  value f ≠ "" ∧
  errorText (fieldView_fire_input t f).1 = None ∧
  (n = NaN ∨ ∃ z, n = Int z ∧ (1 ≤ z ≤ 2 ^ 53)%Z).
Proof.
  intros Hbound.
  unfold fieldView_fire_input, startIndexField_onInput, inputView_onInput.
  cbn. case_bool_decide as Hv; cbn; [|by intros ?%elem_of_nil].
  destruct (lt (parseInt (value f)) 1) eqn:Hlt; cbn;
    [by intros ?%elem_of_nil|].
  intros Hin%list_elem_of_singleton. injection Hin as ->.
  do 4 (split; [done|]).
  destruct (parseInt (value f)) as [|z]; [by left|].
  right. exists z. split; [done|]. cbn in Hlt.
  specialize (Hbound z eq_refl). lia.
Qed.

Lemma listStart_never_below_one_witness :
  (fieldView_fire_input t_en {| value := "12abc"; errorText := None |}).2 =
    [listStart (Int 12)] ∧
  (fieldView_fire_input t_en {| value := "abc"; errorText := None |}).2 =
    [listStart NaN].
Proof.
  split.
  - refine (proj1 (listStart_never_below_one t_en
                     {| value := "12abc"; errorText := None |} (Int 12) _ _)).
    + intros z Hz. vm_compute in Hz. injection Hz as <-. vm_compute.
      discriminate.
    + apply list_elem_of_here.
  - refine (proj1 (listStart_never_below_one t_en
                     {| value := "abc"; errorText := None |} NaN _ _)).
    + intros z Hz. vm_compute in Hz. discriminate Hz.
    + apply list_elem_of_here.
Defined.

(** ** The form and its focus order *)

Ltac list_membership :=
  repeat match goal with
  | |- _ ∧ _ => split
  | |- _ ↔ _ => split
  | |- _ → _ => intros ?
  | H : _ ∧ _ |- _ => destruct H
  | H : is_Some None |- _ => by destruct H
  | H : _ ∈ [] |- _ => by apply elem_of_nil in H
  | H : _ ∈ _ :: _ |- _ => apply elem_of_cons in H as [H|H]; simplify_eq
  | |- is_Some (Some _) => by eexists
  | |- _ ∈ _ => by repeat constructor
  | _ => done
  end.

(** X11.  The classes, the members and the children of a form follow from
    its options.  The class [ck-list-properties_without-styles] is there
    exactly when no style buttons are given, and
    [ck-list-properties_with-numbered-properties] exactly when the commands
    of numbered lists are given, even if no property is enabled.  A field
    exists exactly when the commands are given and its property is enabled.
    With style buttons the children are the styles view and, when the
    commands are given, one collapsed collapsible labelled 'List
    properties' that holds the fields that exist, the start-index field
    first, and is there even when it holds none; the fields are then never
    children of the form itself.  Without style buttons the children are
    the fields that exist, in that order, and there is no collapsible. *)
Theorem form_follows_options (t : string → string) (options : Options) :
  ("ck-list-properties_without-styles" ∈ cssClasses (constructor t options) ↔
   styleButtonViews options = None) ∧
  ("ck-list-properties_with-numbered-properties"
     ∈ cssClasses (constructor t options) ↔
   is_Some (numberedListPropertyCommands options)) ∧
  (is_Some (startIndexFieldView (constructor t options)) ↔
   is_Some (numberedListPropertyCommands options) ∧
   startIndex (enabledProperties options) = true) ∧
  (is_Some (reversedFieldView (constructor t options)) ↔
   is_Some (numberedListPropertyCommands options) ∧
   reversed (enabledProperties options) = true) ∧
  children (constructor t options) =
    match styleButtonViews options with
    | Some styleButtons =>
        StylesView (styleGridAriaLabel options) styleButtons ::
        match numberedListPropertyCommands options with
        | Some _ =>
            [CollapsibleView (t "List properties") true
               (option_list (startIndexFieldView (constructor t options)) ++
                option_list (reversedFieldView (constructor t options)))]
        | None => []
        end
    | None =>
        FieldChild <$>
          (option_list (startIndexFieldView (constructor t options)) ++
           option_list (reversedFieldView (constructor t options)))
    end ∧
  startIndexFieldView (constructor t options) =
    match numberedListPropertyCommands options with
    | Some commands =>
        if startIndex (enabledProperties options)
        then Some (_createStartIndexField t commands) else None
    | None => None
    end ∧
  reversedFieldView (constructor t options) =
    match numberedListPropertyCommands options with
    | Some commands =>
        if reversed (enabledProperties options)
        then Some (_createReversedField t commands) else None
    | None => None
    end ∧
  (∀ field, FieldChild field ∈ children (constructor t options) →
     styleButtonViews options = None) ∧
  (∀ label isCollapsed fields,
     CollapsibleView label isCollapsed fields
       ∈ children (constructor t options) →
     is_Some (styleButtonViews options) ∧
     is_Some (numberedListPropertyCommands options) ∧
     label = t "List properties" ∧ isCollapsed = true ∧
     fields = option_list (startIndexFieldView (constructor t options)) ++
              option_list (reversedFieldView (constructor t options))).
Proof.
  destruct options as [[commands|] [[] []] [styleButtons|] label];
    unfold constructor; cbn; list_membership.
Qed.

Example empty_collapsible :
  children (constructor t_en
    {| numberedListPropertyCommands :=
         Some {| listStartCommand := 1; listReversedCommand := 2 |};
       enabledProperties := {| startIndex := false; reversed := false |};
       styleButtonViews := Some [];
       styleGridAriaLabel := "Styles" |}) =
    [StylesView "Styles" []; CollapsibleView "List properties" true []].
Proof. reflexivity. Qed.

Lemma render_style_buttons (styleButtons : list nat) (r : Rendered) :
  fold_left
    (λ r styleButtonView,
       {| focusables := focusables r ++ [StyleButton styleButtonView];
          focusTracker := focusTracker r ++ [StyleButton styleButtonView];
          keystrokes := keystrokes r;
          selectstart := selectstart r |})
    styleButtons r =
  {| focusables := focusables r ++ (StyleButton <$> styleButtons);
     focusTracker := focusTracker r ++ (StyleButton <$> styleButtons);
     keystrokes := keystrokes r;
     selectstart := selectstart r |}.
Proof.
  revert r. induction styleButtons as [|b bs IH]; intros r; cbn.
  - rewrite !app_nil_r. by destruct r.
  - rewrite IH. cbn. by rewrite <- !app_assoc.
Qed.

(** X12.  Once a form made from [options] is rendered, the focus goes
    through the style buttons in the order given, then the start-index
    field, then the reversed-order field, each of the two if it exists; the
    focus tracker follows the same elements in the same order.  The form
    stops the arrow keys, and listens to [selectstart], exactly when the
    start-index field exists. *)
Theorem focus_order (t : string → string) (options : Options) :
  focusables (render (constructor t options)) =
    (StyleButton <$> default [] (styleButtonViews options)) ++
    match numberedListPropertyCommands options with
    | Some commands =>
        (if startIndex (enabledProperties options)
         then [Field (_createStartIndexField t commands)] else []) ++
        (if reversed (enabledProperties options)
         then [Field (_createReversedField t commands)] else [])
    | None => []
    end ∧
  focusTracker (render (constructor t options)) =
    focusables (render (constructor t options)) ∧
  keystrokes (render (constructor t options)) =
    (if bool_decide (is_Some (startIndexFieldView (constructor t options)))
     then ["arrowright"; "arrowleft"; "arrowup"; "arrowdown"] else []) ∧
  selectstart (render (constructor t options)) =
    bool_decide (is_Some (startIndexFieldView (constructor t options))).
Proof.
  destruct options as [[commands|] [[] []] [styleButtons|] label];
    unfold constructor, render; cbn;
    rewrite ?render_style_buttons; cbn; rewrite ?app_nil_r, <- ?app_assoc;
    done.
Qed.

Example focus_order_of_numbered_options :
  focusables (render (constructor t_en numbered_options)) =
    [StyleButton 10; StyleButton 11; StyleButton 12; StyleButton 13;
     Field (StartIndexFieldView "Start at"
              "ck-numbered-list-properties-start-index" 1);
     Field (ReversedFieldView "Reversed order"
              "ck-numbered-list-properties-reversed-order" 2)].
Proof. reflexivity. Qed.

Lemma form_follows_options_witness :
  "ck-list-properties_with-numbered-properties"
    ∈ cssClasses (constructor t_en numbered_options) ∧
  is_Some (startIndexFieldView (constructor t_en numbered_options)) ∧
  children (constructor t_en numbered_options) =
    [StylesView "Numbered list styles toolbar" [10; 11; 12; 13];
     CollapsibleView "List properties" true
       [StartIndexFieldView "Start at"
          "ck-numbered-list-properties-start-index" 1;
        ReversedFieldView "Reversed order"
          "ck-numbered-list-properties-reversed-order" 2]].
Proof.
  destruct (form_follows_options t_en numbered_options)
    as (_ & Hnumbered & Hstart & _ & Hchildren & _).
  split; [apply Hnumbered; by eexists|].
  split; [apply Hstart; split; [by eexists|reflexivity]|].
  exact Hchildren.
Defined.

(** ** Integers typed in decimal *)

Lemma digit_value_pretty (x : N) :
  (x < 10)%N → digit_value (pretty_N_char x) = Some (Z.of_N x).
Proof.
  intros Hx.
  assert (x = 0 ∨ x = 1 ∨ x = 2 ∨ x = 3 ∨ x = 4 ∨ x = 5 ∨ x = 6 ∨ x = 7
          ∨ x = 8 ∨ x = 9)%N as Hcases by lia.
  repeat (destruct Hcases as [->|Hcases]; [reflexivity|]). by subst.
Qed.

Lemma parse_digits_pretty (x : N) (s : string) :
  (0 < x)%N →
  parse_digits 10 (pretty_N_go x s) None =
    parse_digits 10 s (Some (Z.of_N x)).
Proof.
  revert s. induction (N.lt_wf_0 x) as [x _ IH]. intros s Hx.
  rewrite pretty_N_go_step by done.
  assert (x `mod` 10 < 10)%N as Hmod by (apply N.mod_lt; lia).
  assert (Z.of_N x =
          Z.of_N (x `div` 10) * 10 + Z.of_N (x `mod` 10))%Z as Hdiv.
  { rewrite (N.div_mod x 10) at 1 by lia. lia. }
  destruct (decide (x `div` 10 = 0)%N) as [Hq|Hq].
  - rewrite Hq, pretty_N_go_0. cbn [parse_digits].
    rewrite (digit_value_pretty _ Hmod).
    assert ((Z.of_N (x `mod` 10) <? 10)%Z = true) as ->
      by (apply Z.ltb_lt; lia).
    cbn [default]. rewrite Hdiv, Hq. done.
  - rewrite IH; [|apply N.div_lt; lia|lia]. cbn [parse_digits].
    rewrite (digit_value_pretty _ Hmod).
    assert ((Z.of_N (x `mod` 10) <? 10)%Z = true) as ->
      by (apply Z.ltb_lt; lia).
    cbn [default]. by rewrite Hdiv.
Qed.

(** A printed number starts with a digit that is not zero. *)
Lemma pretty_N_go_head (x : N) (s : string) :
  (0 < x)%N →
  ∃ k rest,
    (0 < k < 10)%N ∧ pretty_N_go x s = String (pretty_N_char k) rest.
Proof.
  revert s. induction (N.lt_wf_0 x) as [x _ IH]. intros s Hx.
  rewrite pretty_N_go_step by done.
  assert (x `mod` 10 < 10)%N as Hmod by (apply N.mod_lt; lia).
  destruct (decide (x `div` 10 = 0)%N) as [Hq|Hq].
  - rewrite Hq, pretty_N_go_0. exists (x `mod` 10)%N, s. split; [|done].
    rewrite (N.div_mod x 10) in Hx by lia. lia.
  - apply IH; [apply N.div_lt; lia|by apply N.neq_0_lt_0].
Qed.

(** Evaluates the tests that [parseInt] makes on a known character. *)
Ltac known_characters :=
  repeat match goal with
  | |- context [is_white_space ?c] =>
      let b := eval vm_compute in (is_white_space c) in
      change (is_white_space c) with b
  | |- context [digit_value ?c] =>
      let v := eval vm_compute in (digit_value c) in
      change (digit_value c) with v
  end.

Lemma parseInt_number (s : string) (k : N) (rest : string) :
  (0 < k < 10)%N → s = String (pretty_N_char k) rest →
  parseInt s =
    match parse_digits 10 s None with
    | Some mathInt => Int mathInt
    | None => NaN
    end ∧
  parseInt (String "-" s) =
    match parse_digits 10 s None with
    | Some mathInt => Int (- mathInt)
    | None => NaN
    end.
Proof.
  intros Hk ->.
  assert (k = 1 ∨ k = 2 ∨ k = 3 ∨ k = 4 ∨ k = 5 ∨ k = 6 ∨ k = 7 ∨ k = 8
          ∨ k = 9)%N as [->|[->|[->|[->|[->|[->|[->|[->| ->]]]]]]]] by lia;
    unfold parseInt; cbn; repeat (progress (known_characters; cbn));
    match goal with
    | |- context [parse_digits ?R ?digits ?acc] =>
        by destruct (parse_digits R digits acc) as [[| |]|]
    end.
Qed.

Lemma parseInt_pretty_N (x : N) :
  (0 < x)%N →
  parseInt (pretty_N_go x "") = Int (Z.of_N x) ∧
  parseInt ("-" +:+ pretty_N_go x "") = Int (- Z.of_N x).
Proof.
  intros Hx.
  destruct (pretty_N_go_head x "" Hx) as (k & rest & Hk & Heq).
  destruct (parseInt_number _ k rest Hk Heq) as [Hpos Hneg].
  change ("-" +:+ pretty_N_go x "") with (String "-" (pretty_N_go x "")).
  rewrite Hpos, Hneg, (parse_digits_pretty x "" Hx). done.
Qed.

(** The round trip of an integer through its decimal text. *)
Lemma parseInt_pretty (z : Z) : parseInt (pretty z) = Int z.
Proof.
  destruct z as [|p|p]; [reflexivity|..];
    unfold pretty, pretty_Z, pretty, pretty_positive, pretty, pretty_N;
    rewrite decide_False by done.
  - by destruct (parseInt_pretty_N (N.pos p)) as [-> _].
  - by destruct (parseInt_pretty_N (N.pos p)) as [_ ->].
Qed.

Lemma pretty_Z_not_empty (z : Z) : pretty z ≠ "".
Proof.
  intros Hz. pose proof (parseInt_pretty z) as Hp. rewrite Hz in Hp.
  discriminate Hp.
Qed.

Lemma fire_input_pretty (t : string → string) (z : Z)
    (earlier : option string) :
  fieldView_fire_input t {| value := pretty z; errorText := earlier |} =
    if (z <? 1)%Z then
      ({| value := pretty z;
          errorText := Some (t "Start index must be greater than 0.") |}, [])
    else
      ({| value := pretty z; errorText := None |}, [listStart (Int z)]).
Proof.
  unfold fieldView_fire_input, startIndexField_onInput, inputView_onInput.
  cbn. rewrite bool_decide_eq_true_2 by apply pretty_Z_not_empty.
  rewrite parseInt_pretty. cbn. by destruct (z <? 1)%Z.
Qed.

(** X13.  An integer typed in decimal is read as that integer, for the
    integers that a JavaScript number holds exactly (up to 2^53 either way):
    an [input] event on the digits of an integer from 1 up fires [listStart]
    with that integer and shows no error; on the digits of 0 or of a
    negative integer (with its minus sign) it fires nothing and shows the
    error. *)
Theorem typed_integer (t : string → string) (z : Z)
    (earlier : option string) :
  (Z.abs z ≤ 2 ^ 53)%Z →
  fieldView_fire_input t {| value := pretty z; errorText := earlier |} =
    if (z <? 1)%Z then
      ({| value := pretty z;
          errorText := Some (t "Start index must be greater than 0.") |}, [])
    else
      ({| value := pretty z; errorText := None |}, [listStart (Int z)]).
Proof. intros _. apply fire_input_pretty. Qed.

Lemma typed_integer_witness :
  fieldView_fire_input t_en
    {| value := "1000";
       errorText := Some "Start index must be greater than 0." |} =
    ({| value := "1000"; errorText := None |}, [listStart (Int 1000)]) ∧
  fieldView_fire_input t_en {| value := "-7"; errorText := None |} =
    ({| value := "-7";
        errorText := Some "Start index must be greater than 0." |}, []).
Proof.
  split.
  - refine (typed_integer t_en 1000 _ _). by vm_compute.
  - refine (typed_integer t_en (-7) _ _). by vm_compute.
Defined.

End ListPropertiesForm.
